(** * Omnivore backup: cursor pagination and CSV rendering

    A shallow embedding of [backup.py]: the paginated fetch loop of
    [OmnivoreBackup], the interrupt handling of [run], the entry point
    [main] and the CSV formatter ([_generate_csv], [_format_labels],
    [_unix_ts]), together with the properties the specification states
    about them. *)

From Stdlib Require Import ZArith List String Ascii Bool Lia.
From Stdlib Require Import DecimalString DecimalPos DecimalZ.
From Stdlib Require Import SpecFloat.
Import ListNotations.

Local Open Scope string_scope.
Local Open Scope Z_scope.

(** ** Python values used by the program *)

(** The exceptions that occur in the program. [KeyboardInterrupt] is the
    only one [run] catches; [SystemExit] is what [sys.exit] raises. *)
Inductive exn : Type :=
| KeyboardInterrupt
| SystemExit (code : Z)
| KeyError (key : string)
| ValueError (msg : string)
| OverflowError
| TransportError (msg : string).

(** Result of an expression that may raise. *)
Inductive result (A : Type) : Type :=
| Ok (a : A)
| Raise (e : exn).
Arguments Ok {A} a.
Arguments Raise {A} e.

Definition bind {A B : Type} (r : result A) (k : A -> result B) : result B :=
  match r with
  | Ok a => k a
  | Raise e => Raise e
  end.

Notation "x <- c ;; k" := (bind c (fun x => k))
  (at level 61, c at next level, right associativity).

(** ** Strings *)

Definition dquote : ascii := ascii_of_nat 34.
Definition newline : ascii := ascii_of_nat 10.
Definition nl : string := String newline EmptyString.

(** [sep.join(parts)] *)
Fixpoint join (sep : string) (parts : list string) : string :=
  match parts with
  | [] => ""
  | [p] => p
  | p :: rest => p ++ sep ++ join sep rest
  end.

(** [str(n)] for a Python [int]. *)
Definition str_of_int (n : Z) : string := NilZero.string_of_int (Z.to_int n).

(** [timestamp.replace('Z', '+00:00')]: every occurrence is replaced. *)
Fixpoint replace_Z (s : string) : string :=
  match s with
  | EmptyString => EmptyString
  | String c rest =>
      if Ascii.eqb c "Z"%char then "+00:00" ++ replace_Z rest
      else String c (replace_Z rest)
  end.

(** ** binary64 arithmetic

    Python floats are IEEE 754 binary64 numbers; the operations are the
    ones of the standard library's executable specification. *)

Definition float := spec_float.
Definition prec : Z := 53.
Definition emax : Z := 1024.

(** [float(n)], correctly rounded. *)
Definition float_of_int (n : Z) : float := binary_normalize prec emax n 0 false.

(** [a / b] on Python ints: the correctly rounded quotient of the exact
    integers (CPython's [long_true_divide]), which [SFdiv] computes from
    the unrounded mantissas. *)
Definition int_true_divide (a b : Z) : result float :=
  match a, b with
  | _, Z0 => Raise (ValueError "division by zero")
  | Z0, _ => Ok (S754_zero false)
  | Zpos p, Zpos q => Ok (SFdiv prec emax (S754_finite false p 0) (S754_finite false q 0))
  | Zneg p, Zpos q => Ok (SFdiv prec emax (S754_finite true p 0) (S754_finite false q 0))
  | Zpos p, Zneg q => Ok (SFdiv prec emax (S754_finite false p 0) (S754_finite true q 0))
  | Zneg p, Zneg q => Ok (SFdiv prec emax (S754_finite true p 0) (S754_finite true q 0))
  end.

(** [int(x)]: truncation toward zero; infinities and NaN raise. *)
Definition int_of_float (x : float) : result Z :=
  match x with
  | S754_zero _ => Ok 0
  | S754_finite s m e =>
      let a := if 0 <=? e then Z.shiftl (Zpos m) e else Z.shiftr (Zpos m) (- e) in
      Ok (if s then - a else a)
  | S754_infinity _ => Raise OverflowError
  | S754_nan => Raise (ValueError "cannot convert float NaN to integer")
  end.

(** The literal [1e3]. *)
Definition f1e3 : float := float_of_int 1000.

(** ** [datetime]

    [datetime.fromisoformat] and [datetime.timestamp] belong to the Python
    standard library.  They are modelled after their documented contract.
    Parsing accepts the format
    [YYYY-MM-DD[*HH[:MM[:SS[.fff[fff]]]][+HH:MM[:SS[.ffffff]]]]] of
    Python 3.7 to 3.10, which has no [Z] designator (hence the [replace] in
    [_unix_ts]); anything else is a [ValueError].  Later versions read
    these strings the same way and accept further ones.  [timestamp] is the
    computation CPython performs: [(self - epoch).total_seconds()] for an
    aware value, the platform's local-time conversion for a naive one. *)

Record datetime : Type := mk_datetime {
  year : Z; month : Z; day : Z;
  hour : Z; minute : Z; second : Z; microsecond : Z;
  (** UTC offset in microseconds; [None] for a naive value *)
  tzinfo : option Z
}.

Definition is_leap (y : Z) : bool :=
  (y mod 4 =? 0) && (negb (y mod 100 =? 0) || (y mod 400 =? 0)).

Definition days_in_month (y m : Z) : Z :=
  if m =? 2 then (if is_leap y then 29 else 28)
  else if (m =? 4) || (m =? 6) || (m =? 9) || (m =? 11) then 30
  else 31.

Definition days_before_year (y : Z) : Z :=
  let y1 := y - 1 in y1 * 365 + y1 / 4 - y1 / 100 + y1 / 400.

Definition days_before_month (y m : Z) : Z :=
  nth (Z.to_nat m) [0; 0; 31; 59; 90; 120; 151; 181; 212; 243; 273; 304; 334] 0
  + (if (2 <? m) && is_leap y then 1 else 0).

(** Proleptic Gregorian ordinal, day 1 being 0001-01-01. *)
Definition ymd2ord (y m d : Z) : Z :=
  days_before_year y + days_before_month y m + d.

Definition epoch_ordinal : Z := ymd2ord 1970 1 1.

(** Seconds from 1970-01-01T00:00:00 to the wall-clock fields of [d]. *)
Definition wall_seconds (d : datetime) : Z :=
  (ymd2ord (year d) (month d) (day d) - epoch_ordinal) * 86400
  + hour d * 3600 + minute d * 60 + second d.

Definition is_digit (c : ascii) : bool :=
  let n := Z.of_nat (nat_of_ascii c) in (48 <=? n) && (n <=? 57).

Definition digit_value (c : ascii) : Z := Z.of_nat (nat_of_ascii c) - 48.

(** Exactly [n] decimal digits at the head of [s]. *)
Fixpoint parse_digits (n : nat) (acc : Z) (s : string) : option (Z * string) :=
  match n with
  | O => Some (acc, s)
  | S n' =>
      match s with
      | String c rest =>
          if is_digit c then parse_digits n' (10 * acc + digit_value c) rest
          else None
      | EmptyString => None
      end
  end.

Definition expect (c : ascii) (s : string) : option string :=
  match s with
  | String c' rest => if Ascii.eqb c c' then Some rest else None
  | EmptyString => None
  end.

Definition obind {A B : Type} (o : option A) (k : A -> option B) : option B :=
  match o with
  | Some a => k a
  | None => None
  end.

(** [YYYY-MM-DD] *)
Definition parse_isoformat_date (s : string) : option (Z * Z * Z * string) :=
  obind (parse_digits 4 0 s) (fun '(y, s1) =>
  obind (expect "-" s1) (fun s2 =>
  obind (parse_digits 2 0 s2) (fun '(m, s3) =>
  obind (expect "-" s3) (fun s4 =>
  obind (parse_digits 2 0 s4) (fun '(d, s5) =>
  Some (y, m, d, s5)))))).

(** [.fff[fff]]: three or six digits up to the end, as microseconds. *)
Definition parse_fraction (s : string) : option Z :=
  match String.length s with
  | 3%nat => obind (parse_digits 3 0 s) (fun '(f, _) => Some (f * 1000))
  | 6%nat => obind (parse_digits 6 0 s) (fun '(f, _) => Some f)
  | _ => None
  end.

(** [HH[:MM[:SS[.fff[fff]]]]] covering the whole of [s]. *)
Definition parse_hh_mm_ss_ff (s : string) : option (Z * Z * Z * Z) :=
  obind (parse_digits 2 0 s) (fun '(h, s1) =>
  match s1 with
  | EmptyString => Some (h, 0, 0, 0)
  | _ =>
    obind (expect ":" s1) (fun s2 =>
    obind (parse_digits 2 0 s2) (fun '(m, s3) =>
    match s3 with
    | EmptyString => Some (h, m, 0, 0)
    | _ =>
      obind (expect ":" s3) (fun s4 =>
      obind (parse_digits 2 0 s4) (fun '(sec, s5) =>
      match s5 with
      | EmptyString => Some (h, m, sec, 0)
      | _ =>
        obind (expect "." s5) (fun s6 =>
        obind (parse_fraction s6) (fun us => Some (h, m, sec, us)))
      end))
    end))
  end).

(** Splits a time string at its first [+] or [-]: the part before the sign
    and, when there is one, the sign and what follows it. *)
Fixpoint split_tz (s : string) : string * option (bool * string) :=
  match s with
  | EmptyString => (EmptyString, None)
  | String c rest =>
      if Ascii.eqb c "+"%char then (EmptyString, Some (false, rest))
      else if Ascii.eqb c "-"%char then (EmptyString, Some (true, rest))
      else let '(t, z) := split_tz rest in (String c t, z)
  end.

Definition day_us : Z := 86400 * 1000000.

(** [+HH:MM[:SS[.ffffff]]] as a signed offset in microseconds.  CPython
    returns [timezone.utc] when the hours, minutes and seconds of the
    offset are all zero, whatever the fraction; otherwise it builds a
    [timezone], which requires the offset to lie strictly between minus
    and plus one day. *)
Definition parse_tz (negative : bool) (s : string) : option Z :=
  match String.length s with
  | 5%nat | 8%nat | 15%nat =>
      obind (parse_hh_mm_ss_ff s) (fun '(h, m, sec, us) =>
      let tzoffset := h * 3600 + m * 60 + sec in
      if tzoffset =? 0 then Some 0 else
      let off := tzoffset * 1000000 + us in
      let off := if negative then - off else off in
      if (- day_us <? off) && (off <? day_us) then Some off else None)
  | _ => None
  end.

Definition valid_date (y m d : Z) : bool :=
  (1 <=? y) && (y <=? 9999) && (1 <=? m) && (m <=? 12)
  && (1 <=? d) && (d <=? days_in_month y m).

Definition valid_time (h m s us : Z) : bool :=
  (h <? 24) && (m <? 60) && (s <? 60) && (us <? 1000000).

Definition parse_isoformat (s : string) : option datetime :=
  obind (parse_isoformat_date s) (fun '(y, m, d, rest) =>
  if negb (valid_date y m d) then None else
  match rest with
  | EmptyString => Some (mk_datetime y m d 0 0 0 0 None)
  | String _ tstr =>
      let '(t, z) := split_tz tstr in
      obind (parse_hh_mm_ss_ff t) (fun '(h, mi, sec, us) =>
      if negb (valid_time h mi sec us) then None else
      match z with
      | None => Some (mk_datetime y m d h mi sec us None)
      | Some (negative, zs) =>
          obind (parse_tz negative zs) (fun off =>
          Some (mk_datetime y m d h mi sec us (Some off)))
      end)
  end).

(** [datetime.fromisoformat(s)] *)
Definition fromisoformat (s : string) : result datetime :=
  match parse_isoformat s with
  | Some d => Ok d
  | None => Raise (ValueError ("Invalid isoformat string: " ++ s))
  end.

(** Microseconds from the epoch to the instant an aware value denotes. *)
Definition epoch_us (d : datetime) (offset : Z) : Z :=
  wall_seconds d * 1000000 + microsecond d - offset.

Section Platform.

(** The platform's conversion of a naive (local) wall-clock time to
    POSIX seconds; it depends on the time zone of the machine, and it
    raises where the platform cannot place the value (CPython raises
    [ValueError], [OverflowError] or [OSError] at the ends of the range). *)
Variable local_to_seconds : datetime -> result Z.

(** [d.timestamp()] *)
Definition timestamp (d : datetime) : result float :=
  match tzinfo d with
  | Some off => int_true_divide (epoch_us d off) 1000000
  | None =>
      seconds <- local_to_seconds d ;;
      frac <- int_true_divide (microsecond d) 1000000 ;;
      Ok (SFadd prec emax (float_of_int seconds) frac)
  end.

(** [_unix_ts] *)
Definition _unix_ts (timestamp_str : string) : result string :=
  d <- fromisoformat (replace_Z timestamp_str) ;;
  t <- timestamp d ;;
  n <- int_of_float (SFmul prec emax t f1e3) ;;
  Ok (str_of_int n).

End Platform.

(** ** Data model *)

Record PageInfo : Type := mk_PageInfo {
  hasNextPage : bool;
  hasPreviousPage : bool;
  startCursor : string;
  endCursor : string;
  totalCount : Z
}.

Record Label : Type := mk_Label { name : string }.

(** [publishedAt] is nullable in the response: [None] is Python's [None]. *)
Record SearchItem : Type := mk_SearchItem {
  title : string;
  url : string;
  labels : list Label;
  publishedAt : option string;
  savedAt : string
}.

Record SearchItemEdge : Type := mk_SearchItemEdge {
  cursor : string;
  node : SearchItem
}.

(** ** Formatter *)

Definition csv_header : string := "url,state,labels,saved_at,published_at" ++ nl.

(** [_format_labels] *)
Definition _format_labels (ls : list Label) : string :=
  String dquote "[" ++ join "," (map name ls) ++ "]" ++ String dquote "".

(** Python truthiness of an optional string: [not s]. *)
Definition py_not (s : option string) : bool :=
  match s with
  | None => true
  | Some EmptyString => true
  | Some _ => false
  end.

(** [node.savedAt if not node.publishedAt else node.publishedAt] *)
Definition published_or_saved (n : SearchItem) : string :=
  if py_not (publishedAt n) then savedAt n
  else match publishedAt n with Some p => p | None => savedAt n end.

Section Formatter.

Variable local_to_seconds : datetime -> result Z.

(** The list handed to [",".join] for one edge; its elements are evaluated
    left to right and the first failing conversion raises. *)
Definition csv_fields (edge : SearchItemEdge) : result (list string) :=
  let n := node edge in
  saved <- _unix_ts local_to_seconds (savedAt n) ;;
  published <- _unix_ts local_to_seconds (published_or_saved n) ;;
  Ok [url n; "SUCCEEDED"; _format_labels (labels n); saved; published].

(** A row of the output: the comma-joined fields of one edge. *)
Definition row_of (e : SearchItemEdge) (row : string) : Prop :=
  exists fields,
    csv_fields e = Ok fields /\ List.length fields = 5%nat /\
    nth 1 fields "" = "SUCCEEDED" /\ row = join "," fields.

(** One iteration of the loop of [_generate_csv]: the line with its
    newline. *)
Definition csv_line (edge : SearchItemEdge) : result string :=
  fields <- csv_fields edge ;;
  Ok (join "," fields ++ nl).

(** The loop [for edge in edges: ... output += line]. *)
Fixpoint csv_loop (output : string) (edges : list SearchItemEdge) : result string :=
  match edges with
  | [] => Ok output
  | edge :: rest =>
      line <- csv_line edge ;;
      csv_loop (output ++ line) rest
  end.

(** [_generate_csv] *)
Definition _generate_csv (edges : list SearchItemEdge) : result string :=
  csv_loop csv_header edges.

End Formatter.

(** ** Paginator *)

(** The variables of the query: [{"query": ..., "first": ..., "after": ...}]. *)
Record Params : Type := mk_Params {
  query : string;
  first : Z;
  after : string
}.

(** The local [cursor] of [_fetch] holds the integer [0] before the first
    request and the string [endCursor] of the last page afterwards. *)
Inductive PyCursor : Type :=
| CursorInt (n : Z)
| CursorStr (s : string).

(** [_params_for_cursor]; a string never equals the integer [0]. *)
Definition _params_for_cursor (chunk_size : Z) (cur : PyCursor) : Params :=
  {| query := "";
     first := chunk_size;
     after := match cur with
              | CursorInt 0 => ""
              | CursorInt n => str_of_int n
              | CursorStr s => s
              end |}.

(** The two variants of the [search] field of a response. *)
Inductive SearchResult : Type :=
| SearchSuccess (es : list SearchItemEdge) (pi : PageInfo)
| SearchError (errorCodes : list string).

(** What the process does to the outside world. *)
Inductive event : Type :=
| EvClient (endpoint authorization : string)
| EvExecute (request : Params) (response : result SearchResult)
| EvStdout (text : string).

Definition diagnostic : string :=
  "You have to provide a access key in the TOKEN environment variable.".

(** The fields of an [OmnivoreBackup] object that change or are read. *)
Record OmnivoreBackup : Type := mk_OmnivoreBackup {
  chunksize : Z;
  endpoint_url : string;
  token : string;
  edges : list SearchItemEdge
}.

(** [OmnivoreBackup.__init__] *)
Definition __init__ (chunk : Z) (u tok : string) : OmnivoreBackup :=
  {| chunksize := chunk; endpoint_url := u; token := tok; edges := [] |}.

(** The [SearchItemEdge] built from the [cursor] and the [node] of an edge
    of the response. *)
Definition edge_of_response (edge : SearchItemEdge) : SearchItemEdge :=
  let n := node edge in
  {| cursor := cursor edge;
     node := {| title := title n; url := url n; labels := labels n;
                publishedAt := publishedAt n; savedAt := savedAt n |} |}.

(** The loop [for edge in result['search']['edges']: self.edges.append(...)]. *)
Definition append_edges (self : OmnivoreBackup) (es : list SearchItemEdge) : OmnivoreBackup :=
  {| chunksize := chunksize self; endpoint_url := endpoint_url self;
     token := token self;
     edges := fold_left (fun acc edge => (acc ++ [edge_of_response edge])%list)
                        es (edges self) |}.

(** The edges a logged event contributed to the accumulator. *)
Definition response_edges (ev : event) : list SearchItemEdge :=
  match ev with
  | EvExecute _ (Ok (SearchSuccess es _)) => es
  | _ => []
  end.

Definition requests_of (t : list event) : list Params :=
  flat_map (fun ev => match ev with EvExecute r _ => [r] | _ => [] end) t.

Definition stdout_of (t : list event) : list string :=
  flat_map (fun ev => match ev with EvStdout s => [s] | _ => [] end) t.

Definition clients_of (t : list event) : list (string * string) :=
  flat_map (fun ev => match ev with EvClient u a => [(u, a)] | _ => [] end) t.

(** Exit status of the process for the outcome of [main]. *)
Definition exit_status (r : result unit) : Z :=
  match r with
  | Ok _ => 0
  | Raise (SystemExit c) => c
  | Raise KeyboardInterrupt => 130
  | Raise _ => 1
  end.

Section Program.

Variable local_to_seconds : datetime -> result Z.

(** The query executor: the remote service behind [client.execute], a
    deterministic state machine that answers a request with a response or
    raises (a transport failure, or an interrupt delivered while the call
    blocks). *)
Variable Service : Type.
Variable execute : Service -> Params -> Service * result SearchResult.

Record World : Type := mk_World {
  service : Service;
  trace : list event
}.

Definition log (w : World) (ev : event) : World :=
  {| service := service w; trace := trace w ++ [ev] |}.

(** The [while has_next_page] loop of [_fetch].  [fuel] bounds the number
    of iterations; [None] means the bound was reached. *)
Fixpoint fetch_loop (fuel : nat) (has_next_page : bool) (cur : PyCursor)
    (self : OmnivoreBackup) (w : World)
  : option (OmnivoreBackup * World * result unit) :=
  if has_next_page then
    match fuel with
    | O => None
    | S fuel' =>
        let req := _params_for_cursor (chunksize self) cur in
        let '(svc', resp) := execute (service w) req in
        let w' := {| service := svc'; trace := trace w ++ [EvExecute req resp] |} in
        match resp with
        | Raise e => Some (self, w', Raise e)
        | Ok (SearchError _) => Some (self, w', Raise (KeyError "pageInfo"))
        | Ok (SearchSuccess es pi) =>
            fetch_loop fuel' (hasNextPage pi) (CursorStr (endCursor pi))
                       (append_edges self es) w'
        end
    end
  else Some (self, w, Ok tt).

(** [_fetch] *)
Definition _fetch (fuel : nat) (self : OmnivoreBackup) (w : World) :=
  fetch_loop fuel true (CursorInt 0) self w.

(** [_finish]: [print] writes its argument and a newline. *)
Definition _finish (self : OmnivoreBackup) (w : World) : World * result unit :=
  match _generate_csv local_to_seconds (edges self) with
  | Ok out => (log w (EvStdout (out ++ nl)), Ok tt)
  | Raise e => (w, Raise e)
  end.

(** [run]: the handler of [KeyboardInterrupt] calls [_finish], and the
    statement after the [try] calls it as well. *)
Definition run (fuel : nat) (self : OmnivoreBackup) (w : World)
  : option (OmnivoreBackup * World * result unit) :=
  let w0 := log w (EvClient (endpoint_url self) (token self)) in
  match _fetch fuel self w0 with
  | None => None
  | Some (self1, w1, Raise KeyboardInterrupt) =>
      match _finish self1 w1 with
      | (w2, Ok _) => let '(w3, r) := _finish self1 w2 in Some (self1, w3, r)
      | (w2, Raise e) => Some (self1, w2, Raise e)
      end
  | Some (self1, w1, Raise e) => Some (self1, w1, Raise e)
  | Some (self1, w1, Ok _) =>
      let '(w2, r) := _finish self1 w1 in Some (self1, w2, r)
  end.

(** [main], after [parser.parse_args()]: [env_token] is
    [os.getenv("TOKEN")]. *)
Definition main (fuel : nat) (env_token : option string) (chunk : Z) (u : string)
    (w : World) : option (World * result unit) :=
  match env_token with
  | Some tok =>
      if py_not (Some tok) then
        Some (log w (EvStdout (diagnostic ++ nl)), Raise (SystemExit 1))
      else
        match run fuel (__init__ chunk u tok) w with
        | Some (_, w', r) => Some (w', r)
        | None => None
        end
  | None => Some (log w (EvStdout (diagnostic ++ nl)), Raise (SystemExit 1))
  end.

(** A page as the service returns it. *)
Definition Page : Type := (list SearchItemEdge * PageInfo)%type.

(** The requests of the loop that is at [cur] and is served [pages]. *)
Fixpoint page_events (chunk : Z) (cur : PyCursor) (pages : list Page) : list event :=
  match pages with
  | [] => []
  | (es, pi) :: rest =>
      EvExecute (_params_for_cursor chunk cur) (Ok (SearchSuccess es pi))
      :: page_events chunk (CursorStr (endCursor pi)) rest
  end.

(** [replies chunk svc cur pages svc' cur']: asked page after page, from the
    cursor [cur] on, the service in state [svc] answers with [pages], each
    of which announces a next page; it is then in state [svc'] and the
    cursor of the loop is [cur']. *)
Inductive replies (chunk : Z)
  : Service -> PyCursor -> list Page -> Service -> PyCursor -> Prop :=
| replies_nil svc cur : replies chunk svc cur [] svc cur
| replies_cons svc cur es pi svc1 pages svc' cur' :
    execute svc (_params_for_cursor chunk cur) = (svc1, Ok (SearchSuccess es pi)) ->
    hasNextPage pi = true ->
    replies chunk svc1 (CursorStr (endCursor pi)) pages svc' cur' ->
    replies chunk svc cur ((es, pi) :: pages) svc' cur'.

End Program.

Arguments mk_World {Service} service trace.
Arguments service {Service} w.
Arguments trace {Service} w.
Arguments log {Service} w ev.
Arguments fetch_loop {Service} execute fuel has_next_page cur self w.
Arguments _fetch {Service} execute fuel self w.
Arguments _finish local_to_seconds {Service} self w.
Arguments run local_to_seconds {Service} execute fuel self w.
Arguments main local_to_seconds {Service} execute fuel env_token chunk u w.
Arguments replies {Service} execute chunk _ _ _ _ _.

(** What the loop raises on a response that is not a page: the exception
    of the executor itself, or the [KeyError] of
    [result['search']['pageInfo']] on the error variant. *)
Definition raised (resp : result SearchResult) : option exn :=
  match resp with
  | Raise e => Some e
  | Ok (SearchError _) => Some (KeyError "pageInfo")
  | Ok (SearchSuccess _ _) => None
  end.

(** ** Simulated services *)

(** A service that plays a fixed script of responses, one per request, and
    fails once the script is exhausted. *)
Definition scripted_execute (script : list (result SearchResult)) (_ : Params)
  : list (result SearchResult) * result SearchResult :=
  match script with
  | r :: rest => (rest, r)
  | [] => ([], Raise (TransportError "connection closed"))
  end.

(** The offset a cursor of the paged service stands for. *)
Definition parse_cursor (s : string) : option nat :=
  match s with
  | EmptyString => Some O
  | _ => option_map (fun d => Z.to_nat (Z.of_int d)) (NilZero.int_of_string s)
  end.

(** A stateless service over a fixed result set: a request for [first]
    records after the cursor [after] is answered with that slice of
    [items]; the end cursor is the decimal offset of the next record. *)
Definition paged_execute (items : list SearchItemEdge) (_ : unit) (p : Params)
  : unit * result SearchResult :=
  match parse_cursor (after p) with
  | None => (tt, Ok (SearchError ["BAD_REQUEST"]))
  | Some off =>
      let n := Z.to_nat (first p) in
      (tt, Ok (SearchSuccess
                 (firstn n (skipn off items))
                 {| hasNextPage := (off + n <? List.length items)%nat;
                    hasPreviousPage := (0 <? off)%nat;
                    startCursor := str_of_int (Z.of_nat off);
                    endCursor := str_of_int (Z.of_nat (off + n));
                    totalCount := Z.of_nat (List.length items) |}))
  end.

(** The pages [paged_execute] serves from offset [off] on, [rounds]
    bounding their number. *)
Fixpoint paged_pages (rounds : nat) (chunk : nat) (items : list SearchItemEdge)
    (off : nat) : list Page :=
  match rounds with
  | O => []
  | S rounds' =>
      let pi := {| hasNextPage := (off + chunk <? List.length items)%nat;
                   hasPreviousPage := (0 <? off)%nat;
                   startCursor := str_of_int (Z.of_nat off);
                   endCursor := str_of_int (Z.of_nat (off + chunk));
                   totalCount := Z.of_nat (List.length items) |} in
      (firstn chunk (skipn off items), pi)
      :: (if hasNextPage pi then paged_pages rounds' chunk items (off + chunk)
          else [])
  end.

(** ** Decidable equality of edges, for counting occurrences *)

Definition Label_eq_dec (a b : Label) : {a = b} + {a <> b}.
Proof. decide equality. apply string_dec. Defined.

Definition SearchItem_eq_dec (a b : SearchItem) : {a = b} + {a <> b}.
Proof.
  decide equality; try apply string_dec.
  - decide equality. apply string_dec.
  - apply list_eq_dec, Label_eq_dec.
Defined.

Definition edge_eq_dec (a b : SearchItemEdge) : {a = b} + {a <> b}.
Proof.
  decide equality; [apply SearchItem_eq_dec | apply string_dec].
Defined.

(** ** Sample data: two pages of the service, holding three records *)

Definition sample_item (u : string) (published : option string) : SearchItemEdge :=
  {| cursor := u;
     node := {| title := "t"; url := u;
                labels := [mk_Label "a"; mk_Label "b"];
                publishedAt := published;
                savedAt := "2023-06-01T12:00:00Z" |} |}.

Definition sample_items : list SearchItemEdge :=
  [sample_item "https://x.org/1" (Some "");
   sample_item "https://x.org/2" None;
   sample_item "https://x.org/3" (Some "2023-01-01T00:00:00Z")].

Definition sample_page1 : Page :=
  (firstn 2 sample_items, mk_PageInfo true false "c0" "c1" 3).

Definition sample_page2 : Page :=
  (skipn 2 sample_items, mk_PageInfo false true "c1" "c2" 3).

(** A machine whose time zone is a fixed offset east of UTC, in seconds.
    To convert a naive value CPython reads its fields as UTC seconds [t],
    asks the platform for the local time at [t] and, to tell a repeated
    wall-clock time, at one day before the answer; each of these local
    times must fall in the years 1 to 9999. *)
Definition min_seconds : Z := (ymd2ord 1 1 1 - epoch_ordinal) * 86400.

Definition max_seconds : Z := (ymd2ord 9999 12 31 - epoch_ordinal) * 86400 + 86399.

Definition fixed_offset_platform (offset : Z) (d : datetime) : result Z :=
  let t := wall_seconds d in
  if max_seconds <? t + offset then Raise (ValueError "year 10000 is out of range")
  else if t + offset <? min_seconds then Raise (ValueError "year 0 is out of range")
  else if t - 86400 <? min_seconds then Raise (ValueError "year 0 is out of range")
  else Ok (t - offset).

Definition utc_platform : datetime -> result Z := fixed_offset_platform 0.

Definition sample_url : string := "https://api-prod.omnivore.app/api/graphql".

Definition sample_backup : OmnivoreBackup := __init__ 2 sample_url "secret".

Definition page_response (p : Page) : result SearchResult :=
  Ok (SearchSuccess (fst p) (snd p)).

(** The service serves both pages. *)
Definition sample_script : list (result SearchResult) :=
  [page_response sample_page1; page_response sample_page2].

(** The service is interrupted while the second request blocks. *)
Definition interrupted_script : list (result SearchResult) :=
  [page_response sample_page1; Raise KeyboardInterrupt].

(** The service answers the second request with the error variant. *)
Definition failing_script : list (result SearchResult) :=
  [page_response sample_page1; Ok (SearchError ["UNAUTHORIZED"])].

(** The second page repeats the last record of the first. *)
Definition overlapping_script : list (result SearchResult) :=
  [page_response sample_page1;
   page_response (skipn 1 sample_items, mk_PageInfo false true "c1" "c2" 3)].

Definition sample_row (u published : string) : string :=
  u ++ ",SUCCEEDED," ++ String dquote ("[a,b]" ++ String dquote "")
    ++ ",1685620800000," ++ published.

(** The rendering of the first page. *)
Definition sample_csv_page1 : string :=
  "url,state,labels,saved_at,published_at" ++ nl
  ++ sample_row "https://x.org/1" "1685620800000" ++ nl
  ++ sample_row "https://x.org/2" "1685620800000" ++ nl.

(** The fields of the row of a sample record. *)
Definition sample_fields (u published : string) : list string :=
  [u; "SUCCEEDED"; String dquote ("[a,b]" ++ String dquote "");
   "1685620800000"; published].

(** ** Definitions used to state further properties *)

(** A shift record without lost bits. *)
Definition exact_record (m : Z) : shr_record :=
  {| shr_m := m; shr_r := false; shr_s := false |}.

(** The binary64 number that holds the integer [n] of at most 53 bits:
    the mantissa is [n] shifted to 53 bits. *)
Definition canonical_float (s : bool) (n : positive) : float :=
  let d := Zpos (digits2_pos n) in
  S754_finite s (Z.to_pos (Zpos n * 2 ^ (53 - d))) (d - 53).

(** Number of occurrences of a character. *)
Fixpoint count_char (c : ascii) (s : string) : nat :=
  match s with
  | EmptyString => O
  | String c' rest => ((if Ascii.eqb c c' then 1 else 0) + count_char c rest)%nat
  end.

(** The shape of the requests of a run of the loop that ends. *)
Inductive cursor_chain (chunk : Z) : PyCursor -> list event -> result unit -> Prop :=
| chain_done cur es pi :
    hasNextPage pi = false ->
    cursor_chain chunk cur
      [EvExecute (_params_for_cursor chunk cur) (Ok (SearchSuccess es pi))] (Ok tt)
| chain_raise cur resp e :
    raised resp = Some e ->
    cursor_chain chunk cur [EvExecute (_params_for_cursor chunk cur) resp] (Raise e)
| chain_next cur es pi evs r :
    hasNextPage pi = true ->
    cursor_chain chunk (CursorStr (endCursor pi)) evs r ->
    cursor_chain chunk cur
      (EvExecute (_params_for_cursor chunk cur) (Ok (SearchSuccess es pi)) :: evs) r.

(** A service that always answers with an empty page, an empty end cursor
    and the announcement of a next page. *)
Definition stuck_execute (_ : unit) (_ : Params) : unit * result SearchResult :=
  (tt, Ok (SearchSuccess [] (mk_PageInfo true false "" "" 0))).

(** The rendering of both sample pages. *)
Definition sample_csv : string :=
  sample_csv_page1 ++ sample_row "https://x.org/3" "1672531200000" ++ nl.

(** A platform whose local time is one hour ahead of UTC. *)
Definition cet_platform : datetime -> result Z := fixed_offset_platform 3600.

(** * Properties *)

(** ** Strings *)

Lemma append_assoc (a b c : string) : (a ++ b) ++ c = a ++ (b ++ c).
Proof.
  induction a as [|ch a IH]; simpl; [reflexivity | now rewrite IH].
Qed.

Lemma append_nil_r (a : string) : a ++ "" = a.
Proof.
  induction a as [|ch a IH]; simpl; [reflexivity | now rewrite IH].
Qed.

Lemma replace_Z_app (a b : string) :
  replace_Z (a ++ b) = replace_Z a ++ replace_Z b.
Proof.
  induction a as [|ch a IH]; simpl; [reflexivity|].
  destruct (Ascii.eqb ch "Z"); rewrite IH; reflexivity.
Qed.

(** ** Formatter *)

Section FormatterFacts.

Variable lts : datetime -> result Z.

Lemma bind_Ok_inv {A B : Type} (r : result A) (k : A -> result B) (b : B) :
  bind r k = Ok b -> exists a, r = Ok a /\ k a = Ok b.
Proof.
  destruct r as [a|e]; simpl; intros H; [eauto | discriminate].
Qed.

Lemma csv_fields_inv (e : SearchItemEdge) (fields : list string) :
  csv_fields lts e = Ok fields ->
  exists saved published,
    _unix_ts lts (savedAt (node e)) = Ok saved /\
    _unix_ts lts (published_or_saved (node e)) = Ok published /\
    fields = [url (node e); "SUCCEEDED"; _format_labels (labels (node e));
              saved; published].
Proof.
  unfold csv_fields. intros H.
  apply bind_Ok_inv in H as (saved & Hs & H).
  apply bind_Ok_inv in H as (published & Hp & H).
  injection H as <-. eauto.
Qed.

Lemma csv_line_inv (e : SearchItemEdge) (line : string) :
  csv_line lts e = Ok line -> exists row, row_of lts e row /\ line = row ++ nl.
Proof.
  unfold csv_line. intros H.
  apply bind_Ok_inv in H as (fields & Hf & H). injection H as <-.
  exists (join "," fields). split; [|reflexivity].
  exists fields. destruct (csv_fields_inv _ _ Hf) as (s & p & _ & _ & ->).
  repeat split; assumption.
Qed.

Lemma csv_loop_shape (es : list SearchItemEdge) :
  forall acc out, csv_loop lts acc es = Ok out ->
  exists rows, Forall2 (row_of lts) es rows /\
               out = acc ++ String.concat "" (map (fun r => r ++ nl) rows).
Proof.
  induction es as [|e es IH]; simpl; intros acc out H.
  - injection H as <-. exists []. split; [constructor|].
    simpl. now rewrite append_nil_r.
  - apply bind_Ok_inv in H as (line & Hl & H).
    apply csv_line_inv in Hl as (row & Hrow & ->).
    apply IH in H as (rows & Hrows & ->).
    exists (row :: rows). split; [now constructor|].
    rewrite append_assoc. f_equal.
    destruct rows as [|r rows]; simpl.
    + now rewrite !append_nil_r.
    + reflexivity.
Qed.

(** Rendering succeeds as soon as every line does. *)
Lemma csv_loop_lines (es : list SearchItemEdge) (lines : list string) :
  Forall2 (fun e l => csv_line lts e = Ok l) es lines ->
  forall acc, csv_loop lts acc es = Ok (acc ++ String.concat "" lines).
Proof.
  induction 1 as [|e l es lines He _ IH]; intros acc; simpl.
  - now rewrite append_nil_r.
  - rewrite He. simpl. rewrite IH, append_assoc. f_equal.
    destruct lines; simpl; [now rewrite !append_nil_r | reflexivity].
Qed.

(** C4 -- output shape.  Whenever rendering yields a string, that string is
    the fixed header row [url,state,labels,saved_at,published_at] followed
    by one newline-terminated row per edge, in accumulator order; every row
    is the comma-join of five fields, the second of which is the constant
    [SUCCEEDED] whatever the record holds. *)
Theorem generate_csv_shape (es : list SearchItemEdge) (out : string) :
  _generate_csv lts es = Ok out ->
  exists rows,
    List.length rows = List.length es /\
    Forall2 (row_of lts) es rows /\
    out = "url,state,labels,saved_at,published_at" ++ nl
          ++ String.concat "" (map (fun r => r ++ nl) rows).
Proof.
  unfold _generate_csv. intros H.
  apply csv_loop_shape in H as (rows & Hrows & ->).
  exists rows. split; [|split].
  - symmetry. eapply Forall2_length; eassumption.
  - assumption.
  - unfold csv_header. now rewrite append_assoc.
Qed.

(** C5 -- labels serialization.  In the row of every record the labels
    field is the label names joined by commas in sequence order, inside
    brackets and double quotes; the labels [a], [b] give ["[a,b]"] and no
    label gives ["[]"]. *)
Theorem labels_field_serialization (e : SearchItemEdge) (fields : list string) :
  csv_fields lts e = Ok fields ->
  nth 2 fields "" =
    String dquote ("[" ++ join "," (map name (labels (node e))) ++ "]"
                   ++ String dquote "")
  /\ _format_labels [mk_Label "a"; mk_Label "b"]
     = String dquote ("[a,b]" ++ String dquote "")
  /\ _format_labels [] = String dquote ("[]" ++ String dquote "").
Proof.
  intros H. apply csv_fields_inv in H as (s & p & _ & _ & ->).
  repeat split.
Qed.

(** C7 -- fallback of [published_at].  A record whose [publishedAt] is
    absent or empty renders, as soon as its [savedAt] converts, with the
    conversion of [savedAt] in both the [saved_at] and the [published_at]
    field; a record whose [publishedAt] is present and non-empty renders
    with the conversion of [publishedAt] in the [published_at] field, and
    does not render when that conversion fails.  Conversely the fields of
    every rendered row are these.  The record saved at
    [2023-06-01T12:00:00Z] whose [publishedAt] is empty renders
    [1685620800000] in both fields. *)
Theorem published_at_fallback (e : SearchItemEdge) :
  (forall s,
     publishedAt (node e) = None \/ publishedAt (node e) = Some "" ->
     _unix_ts lts (savedAt (node e)) = Ok s ->
     csv_fields lts e
     = Ok [url (node e); "SUCCEEDED"; _format_labels (labels (node e)); s; s])
  /\ (forall p s q,
        publishedAt (node e) = Some p -> p <> "" ->
        _unix_ts lts (savedAt (node e)) = Ok s ->
        _unix_ts lts p = Ok q ->
        csv_fields lts e
        = Ok [url (node e); "SUCCEEDED"; _format_labels (labels (node e)); s; q])
  /\ (forall p s err,
        publishedAt (node e) = Some p -> p <> "" ->
        _unix_ts lts (savedAt (node e)) = Ok s ->
        _unix_ts lts p = Raise err ->
        csv_fields lts e = Raise err)
  /\ (forall fields,
        csv_fields lts e = Ok fields ->
        _unix_ts lts (savedAt (node e)) = Ok (nth 3 fields "")
        /\ (forall p, publishedAt (node e) = Some p -> p <> "" ->
              _unix_ts lts p = Ok (nth 4 fields ""))
        /\ (publishedAt (node e) = None \/ publishedAt (node e) = Some "" ->
              nth 4 fields "" = nth 3 fields ""))
  /\ (forall c t u ls,
        csv_fields lts
          (mk_SearchItemEdge c (mk_SearchItem t u ls (Some "") "2023-06-01T12:00:00Z"))
        = Ok [u; "SUCCEEDED"; _format_labels ls; "1685620800000"; "1685620800000"]).
Proof.
  split; [|split; [|split; [|split]]].
  - intros s Hp Hs. unfold csv_fields, published_or_saved.
    rewrite Hs. cbn [bind].
    destruct Hp as [Hp | Hp]; rewrite Hp; cbn [py_not]; rewrite Hs; reflexivity.
  - intros p s q Hp Hne Hs Hq. unfold csv_fields, published_or_saved.
    rewrite Hs, Hp. cbn [bind].
    destruct p as [|ch p]; [contradiction|]. cbn [py_not]. rewrite Hq. reflexivity.
  - intros p s err Hp Hne Hs Hq. unfold csv_fields, published_or_saved.
    rewrite Hs, Hp. cbn [bind].
    destruct p as [|ch p]; [contradiction|]. cbn [py_not]. rewrite Hq. reflexivity.
  - intros fields H. apply csv_fields_inv in H as (s & p & Hs & Hp & ->). simpl.
    unfold published_or_saved in Hp.
    split; [assumption|]. split.
    + intros q Hq Hne. rewrite Hq in Hp.
      destruct q as [|ch q]; [contradiction | exact Hp].
    + intros [Hn | Hn]; rewrite Hn in Hp; simpl in Hp; congruence.
  - intros c t u ls. vm_compute. reflexivity.
Qed.

(** The trailing [Z] designator is read as the offset [+00:00]. *)
Lemma unix_ts_Z_designator (s : string) :
  _unix_ts lts (s ++ "Z") = _unix_ts lts (s ++ "+00:00").
Proof.
  unfold _unix_ts. now rewrite !replace_Z_app.
Qed.

(** The conversions the specification quotes. *)
Lemma unix_ts_examples :
  _unix_ts lts "2023-01-01T00:00:00Z" = Ok "1672531200000"
  /\ _unix_ts lts "2023-06-01T12:00:00Z" = Ok "1685620800000".
Proof.
  split; vm_compute; reflexivity.
Qed.

(** C6 -- timestamp conversion.  The instant 2004-05-01T12:00:00.001Z lies
    1083412800001 ms after the epoch, yet [_unix_ts] renders
    [1083412800000]: the quotient by [10**6] and the product by [1e3] are
    rounded to binary64 before the truncation. *)
Theorem unix_ts_loses_a_millisecond :
  (exists d, fromisoformat (replace_Z "2004-05-01T12:00:00.001Z") = Ok d
             /\ tzinfo d = Some 0
             /\ epoch_us d 0 = 1083412800001 * 1000)
  /\ _unix_ts lts "2004-05-01T12:00:00.001Z" = Ok "1083412800000".
Proof.
  split.
  - eexists. split; [vm_compute; reflexivity|]. split; reflexivity.
  - vm_compute. reflexivity.
Qed.

End FormatterFacts.

(** C10 -- the labels column is ambiguous: names are joined verbatim, so
    the single label [a,b] and the two labels [a], [b] are serialized to
    the same field. *)
Theorem format_labels_not_injective :
  exists l1 l2 : list Label,
    l1 <> l2 /\ _format_labels l1 = _format_labels l2
    /\ _format_labels l1 = String dquote ("[a,b]" ++ String dquote "").
Proof.
  exists [mk_Label "a,b"], [mk_Label "a"; mk_Label "b"].
  repeat split. discriminate.
Qed.

(** ** Paginator *)

Lemma edge_of_response_id (e : SearchItemEdge) : edge_of_response e = e.
Proof. destruct e as [c [t u l p s]]. reflexivity. Qed.

(** Appending the edges of a page one by one appends the page. *)
Lemma append_loop (es acc : list SearchItemEdge) :
  fold_left (fun a edge => (a ++ [edge_of_response edge])%list) es acc
  = (acc ++ es)%list.
Proof.
  revert acc. induction es as [|e es IH]; intros acc; simpl.
  - now rewrite app_nil_r.
  - rewrite IH, edge_of_response_id, <- app_assoc. reflexivity.
Qed.

Lemma append_edges_spec (self : OmnivoreBackup) (es : list SearchItemEdge) :
  append_edges self es
  = mk_OmnivoreBackup (chunksize self) (endpoint_url self) (token self)
                      (edges self ++ es).
Proof.
  unfold append_edges. now rewrite append_loop.
Qed.

Lemma append_edges_nil (self : OmnivoreBackup) : append_edges self [] = self.
Proof.
  rewrite append_edges_spec. destruct self; simpl. now rewrite app_nil_r.
Qed.

Lemma append_edges_app (self : OmnivoreBackup) (a b : list SearchItemEdge) :
  append_edges (append_edges self a) b = append_edges self (a ++ b).
Proof.
  rewrite !append_edges_spec. simpl. now rewrite app_assoc.
Qed.

Lemma requests_of_app (t1 t2 : list event) :
  requests_of (t1 ++ t2) = (requests_of t1 ++ requests_of t2)%list.
Proof. apply flat_map_app. Qed.

Lemma stdout_of_app (t1 t2 : list event) :
  stdout_of (t1 ++ t2) = (stdout_of t1 ++ stdout_of t2)%list.
Proof. apply flat_map_app. Qed.

Lemma clients_of_app (t1 t2 : list event) :
  clients_of (t1 ++ t2) = (clients_of t1 ++ clients_of t2)%list.
Proof. apply flat_map_app. Qed.

Lemma requests_of_page_events (chunk : Z) (pages : list Page) :
  forall cur,
    requests_of (page_events chunk cur pages)
    = match pages with
      | [] => []
      | _ => _params_for_cursor chunk cur
             :: map (fun q => mk_Params "" chunk (endCursor (snd q)))
                    (removelast pages)
      end.
Proof.
  induction pages as [|[es pi] pages IH]; intros cur; [reflexivity|].
  simpl. f_equal. rewrite IH. destruct pages as [|q pages]; reflexivity.
Qed.

Lemma stdout_of_page_events (chunk : Z) (pages : list Page) :
  forall cur, stdout_of (page_events chunk cur pages) = [].
Proof.
  induction pages as [|[es pi] pages IH]; intros cur; simpl; auto.
Qed.

Lemma response_edges_page_events (chunk : Z) (pages : list Page) :
  forall cur,
    List.concat (map response_edges (page_events chunk cur pages))
    = List.concat (map fst pages).
Proof.
  induction pages as [|[es pi] pages IH]; intros cur; simpl; [reflexivity|].
  now rewrite IH.
Qed.

Section PaginatorFacts.

Variable lts : datetime -> result Z.
Variable Service : Type.
Variable execute : Service -> Params -> Service * result SearchResult.

(** The event of the page that follows the replies. *)
Lemma replies_page_events chunk svc cur pages svc' cur' es pi :
  replies execute chunk svc cur pages svc' cur' ->
  page_events chunk cur (pages ++ [(es, pi)])
  = (page_events chunk cur pages
     ++ [EvExecute (_params_for_cursor chunk cur') (Ok (SearchSuccess es pi))])%list.
Proof.
  induction 1 as [svc cur | svc cur es1 pi1 svc1 pages svc' cur' _ _ _ IH];
    simpl; [reflexivity | now rewrite IH].
Qed.

(** Replies to a sequence of pages split at any page. *)
Lemma replies_app_inv chunk ps1 :
  forall svc cur ps2 svc' cur',
    replies execute chunk svc cur (ps1 ++ ps2)%list svc' cur' ->
    exists svc_k cur_k,
      replies execute chunk svc cur ps1 svc_k cur_k
      /\ replies execute chunk svc_k cur_k ps2 svc' cur'.
Proof.
  induction ps1 as [|[es pi] ps1 IH]; intros svc cur ps2 svc' cur' H.
  - exists svc, cur. split; [apply replies_nil | exact H].
  - simpl in H. inversion H as [|? ? ? ? svc1 ? ? ? Hex Hnext Hrest]; subst.
    apply IH in Hrest as (svc_k & cur_k & H1 & H2).
    exists svc_k, cur_k. split; [|exact H2].
    eapply replies_cons; eassumption.
Qed.

(** Pages that announce a successor are consumed one per iteration. *)
Lemma fetch_loop_replies chunk svc cur pages svc' cur' :
  replies execute chunk svc cur pages svc' cur' ->
  forall fuel self t, chunksize self = chunk ->
    fetch_loop execute (List.length pages + fuel) true cur self (mk_World svc t)
    = fetch_loop execute fuel true cur'
        (append_edges self (List.concat (map fst pages)))
        (mk_World svc' (t ++ page_events chunk cur pages)).
Proof.
  induction 1 as [svc cur | svc cur es pi svc1 pages svc' cur' Hex Hnext _ IH];
    intros fuel self t Hc.
  - simpl. now rewrite append_edges_nil, app_nil_r.
  - simpl. rewrite Hc, Hex, Hnext.
    rewrite IH by exact Hc.
    rewrite append_edges_app, <- app_assoc. reflexivity.
Qed.

(** They do not end the loop: fewer iterations than pages do not suffice. *)
Lemma fetch_loop_starved chunk svc cur pages svc' cur' :
  replies execute chunk svc cur pages svc' cur' ->
  forall fuel self t, chunksize self = chunk ->
    (fuel <= List.length pages)%nat ->
    fetch_loop execute fuel true cur self (mk_World svc t) = None.
Proof.
  induction 1 as [svc cur | svc cur es pi svc1 pages svc' cur' Hex Hnext _ IH];
    intros fuel self t Hc Hle.
  - simpl in Hle. replace fuel with O by lia. reflexivity.
  - destruct fuel as [|fuel]; [reflexivity|].
    simpl. rewrite Hc, Hex, Hnext. apply IH; [exact Hc | simpl in Hle; lia].
Qed.

(** A page that announces no successor ends the loop. *)
Lemma fetch_loop_final chunk svc cur es pi svc' :
  execute svc (_params_for_cursor chunk cur) = (svc', Ok (SearchSuccess es pi)) ->
  hasNextPage pi = false ->
  forall fuel self t, chunksize self = chunk ->
    fetch_loop execute (S fuel) true cur self (mk_World svc t)
    = Some (append_edges self es,
            mk_World svc' (t ++ [EvExecute (_params_for_cursor chunk cur)
                                           (Ok (SearchSuccess es pi))]),
            Ok tt).
Proof.
  intros Hex Hlast fuel self t Hc.
  simpl. rewrite Hc, Hex, Hlast. destruct fuel; reflexivity.
Qed.

(** A response that is not a page raises out of the loop. *)
Lemma fetch_loop_raised chunk svc cur svc' resp e :
  execute svc (_params_for_cursor chunk cur) = (svc', resp) ->
  raised resp = Some e ->
  forall fuel self t, chunksize self = chunk ->
    fetch_loop execute (S fuel) true cur self (mk_World svc t)
    = Some (self,
            mk_World svc' (t ++ [EvExecute (_params_for_cursor chunk cur) resp]),
            Raise e).
Proof.
  intros Hex Hr fuel self t Hc.
  simpl. rewrite Hc, Hex.
  destruct resp as [[es pi | codes] | e']; simpl in Hr; inversion Hr; reflexivity.
Qed.

(** Whatever the service does, the loop only appends to the accumulator:
    the edges of the pages it was served, in the order of the trace. *)
Lemma fetch_loop_accumulates :
  forall fuel has_next_page cur self w self' w' r,
    fetch_loop execute fuel has_next_page cur self w = Some (self', w', r) ->
    exists evs,
      trace w' = (trace w ++ evs)%list
      /\ edges self' = (edges self ++ List.concat (map response_edges evs))%list
      /\ stdout_of evs = [] /\ clients_of evs = []
      /\ chunksize self' = chunksize self
      /\ endpoint_url self' = endpoint_url self /\ token self' = token self.
Proof.
  induction fuel as [|fuel IH]; intros h cur self w self' w' r H.
  - destruct h; simpl in H; [discriminate|]. inversion H; subst.
    exists []. simpl. now rewrite !app_nil_r.
  - destruct h; simpl in H.
    2:{ inversion H; subst. exists []. simpl. now rewrite !app_nil_r. }
    destruct (execute (service w) (_params_for_cursor (chunksize self) cur))
      as [svc' resp] eqn:Hex.
    destruct resp as [[es pi | codes] | e].
    + apply IH in H as (evs & Ht & He & Hs & Hcl & Hc & Hu & Htok).
      rewrite append_edges_spec in He, Hc, Hu, Htok. simpl in *.
      exists (EvExecute (_params_for_cursor (chunksize self) cur)
                        (Ok (SearchSuccess es pi)) :: evs).
      rewrite Ht, He, <- !app_assoc. simpl. auto 10.
    + inversion H; subst.
      exists [EvExecute (_params_for_cursor (chunksize self') cur)
                        (Ok (SearchError codes))].
      simpl. rewrite app_nil_r. repeat split; reflexivity.
    + inversion H; subst.
      exists [EvExecute (_params_for_cursor (chunksize self') cur) (Raise e)].
      simpl. rewrite app_nil_r. repeat split; reflexivity.
Qed.

End PaginatorFacts.

Lemma count_occ_concat (ls : list (list SearchItemEdge)) (e : SearchItemEdge) :
  count_occ edge_eq_dec (List.concat ls) e
  = list_sum (map (fun l => count_occ edge_eq_dec l e) ls).
Proof.
  induction ls as [|l ls IH]; simpl; [reflexivity|].
  now rewrite count_occ_app, IH.
Qed.

Section ProgramFacts.

Variable lts : datetime -> result Z.
Variable Service : Type.
Variable execute : Service -> Params -> Service * result SearchResult.

(** Served pages that all announce a successor, then one that does not:
    the loop ends with the edges of all of them. *)
Lemma fetch_served chunk u tok svc ps svc1 cur1 es pi svc2 t0 fuel :
  replies execute chunk svc (CursorInt 0) ps svc1 cur1 ->
  execute svc1 (_params_for_cursor chunk cur1) = (svc2, Ok (SearchSuccess es pi)) ->
  hasNextPage pi = false ->
  (List.length ps < fuel)%nat ->
  _fetch execute fuel (__init__ chunk u tok) (mk_World svc t0)
  = Some (mk_OmnivoreBackup chunk u tok (List.concat (map fst (ps ++ [(es, pi)]))),
          mk_World svc2 (t0 ++ page_events chunk (CursorInt 0) (ps ++ [(es, pi)])),
          Ok tt).
Proof.
  intros Hrep Hex Hlast Hfuel. unfold _fetch.
  replace fuel with (List.length ps + S (fuel - S (List.length ps)))%nat by lia.
  rewrite (fetch_loop_replies _ _ _ _ _ _ _ _ Hrep) by reflexivity.
  rewrite (fetch_loop_final _ _ _ _ _ _ _ _ Hex Hlast) by reflexivity.
  rewrite append_edges_app, append_edges_spec.
  rewrite (replies_page_events _ _ _ _ _ _ _ _ es pi Hrep).
  rewrite map_app, concat_app, <- app_assoc. simpl. rewrite app_nil_r.
  reflexivity.
Qed.

(** C1 -- pagination completeness and termination.  Let the service answer
    the successive requests of the loop with the pages [ps], each announcing
    a next page, and then with a page [(es, pi)] that announces none.  Then
    for every chunk size the loop ends after exactly one request per page,
    neither earlier nor later; the accumulator holds the edges of all pages
    once each, in the order served; the first request has the empty
    after-cursor and every later one the [endCursor] of the page before. *)
Theorem fetch_pagination_complete chunk u tok svc ps svc1 cur1 es pi svc2 t0 :
  replies execute chunk svc (CursorInt 0) ps svc1 cur1 ->
  execute svc1 (_params_for_cursor chunk cur1) = (svc2, Ok (SearchSuccess es pi)) ->
  hasNextPage pi = false ->
  let pages := (ps ++ [(es, pi)])%list in
  let evs := page_events chunk (CursorInt 0) pages in
  (forall fuel, (List.length pages <= fuel)%nat ->
     _fetch execute fuel (__init__ chunk u tok) (mk_World svc t0)
     = Some (mk_OmnivoreBackup chunk u tok (List.concat (map fst pages)),
             mk_World svc2 (t0 ++ evs), Ok tt))
  /\ (forall fuel, (fuel < List.length pages)%nat ->
        _fetch execute fuel (__init__ chunk u tok) (mk_World svc t0) = None)
  /\ requests_of evs
     = mk_Params "" chunk ""
       :: map (fun p => mk_Params "" chunk (endCursor (snd p))) ps
  /\ List.concat (map response_edges evs) = List.concat (map fst pages).
Proof.
  intros Hrep Hex Hlast pages evs.
  assert (Hlen : List.length pages = S (List.length ps)).
  { unfold pages. rewrite length_app. simpl. lia. }
  split; [|split; [|split]].
  - intros fuel Hfuel. apply fetch_served with (svc1 := svc1) (cur1 := cur1);
      [assumption .. | lia].
  - intros fuel Hfuel. unfold _fetch.
    apply (fetch_loop_starved _ _ _ _ _ _ _ _ Hrep); [reflexivity | lia].
  - unfold evs. rewrite requests_of_page_events. unfold pages.
    rewrite removelast_last. destruct ps; reflexivity.
  - apply response_edges_page_events.
Qed.

(** C9 -- accumulator invariant.  The accumulator is empty when the object
    is created.  Let the loop start from any accumulator and any cursor,
    and let the executor answer its requests with the pages [ps], each
    announcing a next page, and then with a response that ends the loop: a
    page that announces none, or a failure.  Then after every number of
    iterations the accumulator is the initial one followed by the edges of
    the pages served so far, in the order served, and so is the final one:
    nothing is removed, reordered or deduplicated.  An edge occurs in it as
    often as the pages delivered it, and the rendered output has one line
    per occurrence. *)
Theorem accumulator_append_only self svc cur ps svc1 cur1 svc2 resp t0 :
  replies execute (chunksize self) svc cur ps svc1 cur1 ->
  execute svc1 (_params_for_cursor (chunksize self) cur1) = (svc2, resp) ->
  (forall es pi, resp = Ok (SearchSuccess es pi) -> hasNextPage pi = false) ->
  let last := EvExecute (_params_for_cursor (chunksize self) cur1) resp in
  let served := (List.concat (map fst ps) ++ response_edges last)%list in
  edges (__init__ (chunksize self) (endpoint_url self) (token self)) = []
  /\ (forall ps1 ps2 fuel, ps = (ps1 ++ ps2)%list ->
        exists svc_k cur_k,
          replies execute (chunksize self) svc cur ps1 svc_k cur_k
          /\ replies execute (chunksize self) svc_k cur_k ps2 svc1 cur1
          /\ fetch_loop execute (List.length ps1 + fuel) true cur self (mk_World svc t0)
             = fetch_loop execute fuel true cur_k
                 (mk_OmnivoreBackup (chunksize self) (endpoint_url self) (token self)
                    (edges self ++ List.concat (map fst ps1)))
                 (mk_World svc_k (t0 ++ page_events (chunksize self) cur ps1)))
  /\ (forall fuel, (List.length ps < fuel)%nat ->
        fetch_loop execute fuel true cur self (mk_World svc t0)
        = Some (mk_OmnivoreBackup (chunksize self) (endpoint_url self) (token self)
                  (edges self ++ served),
                mk_World svc2 (t0 ++ page_events (chunksize self) cur ps ++ [last]),
                match raised resp with Some e => Raise e | None => Ok tt end))
  /\ (forall e,
        count_occ edge_eq_dec (edges self ++ served) e
        = (count_occ edge_eq_dec (edges self) e
           + list_sum (map (fun p => count_occ edge_eq_dec (fst p) e) ps)
           + count_occ edge_eq_dec (response_edges last) e)%nat)
  /\ (forall lines,
        Forall2 (fun e l => csv_line lts e = Ok l) (edges self ++ served) lines ->
        _generate_csv lts (edges self ++ served)
        = Ok (csv_header ++ String.concat "" lines))
  /\ (forall out,
        _generate_csv lts (edges self ++ served) = Ok out ->
        exists rows,
          Forall2 (row_of lts) (edges self ++ served) rows
          /\ out = csv_header ++ String.concat "" (map (fun r => r ++ nl) rows)).
Proof.
  intros Hrep Hex Hterm last served.
  split; [reflexivity|]. split; [|split; [|split; [|split]]].
  - intros ps1 ps2 fuel ->.
    destruct (replies_app_inv _ execute _ _ _ _ _ _ _ Hrep) as (svc_k & cur_k & H1 & H2).
    exists svc_k, cur_k. split; [exact H1|]. split; [exact H2|].
    rewrite (fetch_loop_replies _ _ _ _ _ _ _ _ H1) by reflexivity.
    now rewrite append_edges_spec.
  - intros fuel Hfuel.
    replace fuel with (List.length ps + S (fuel - S (List.length ps)))%nat by lia.
    rewrite (fetch_loop_replies _ _ _ _ _ _ _ _ Hrep) by reflexivity.
    unfold served, last.
    destruct resp as [[es pi | codes] | e0].
    + rewrite (fetch_loop_final _ _ _ _ _ _ _ _ Hex (Hterm es pi eq_refl))
        by (now rewrite append_edges_spec).
      rewrite append_edges_app, append_edges_spec, <- app_assoc. reflexivity.
    + rewrite (fetch_loop_raised _ _ _ _ _ _ _ _ Hex eq_refl)
        by (now rewrite append_edges_spec).
      rewrite append_edges_spec, <- app_assoc. simpl. now rewrite app_nil_r.
    + rewrite (fetch_loop_raised _ _ _ _ _ _ _ _ Hex eq_refl)
        by (now rewrite append_edges_spec).
      rewrite append_edges_spec, <- app_assoc. simpl. now rewrite app_nil_r.
  - intros e. unfold served.
    rewrite !count_occ_app, count_occ_concat, map_map. lia.
  - intros lines Hlines. unfold _generate_csv. now apply csv_loop_lines.
  - intros out Hout. unfold _generate_csv in Hout. now apply csv_loop_shape in Hout.
Qed.

(** On an interrupt the handler of [run] renders the accumulator and
    prints it, and so does the statement after the [try]. *)
Lemma run_interrupted chunk u tok svc ps svc1 cur1 svc2 t0 out fuel :
  replies execute chunk svc (CursorInt 0) ps svc1 cur1 ->
  execute svc1 (_params_for_cursor chunk cur1) = (svc2, Raise KeyboardInterrupt) ->
  _generate_csv lts (List.concat (map fst ps)) = Ok out ->
  (List.length ps < fuel)%nat ->
  exists w',
    run lts execute fuel (__init__ chunk u tok) (mk_World svc t0)
    = Some (mk_OmnivoreBackup chunk u tok (List.concat (map fst ps)), w', Ok tt)
    /\ stdout_of (trace w') = (stdout_of t0 ++ [(out ++ nl)%string; (out ++ nl)%string])%list.
Proof.
  intros Hrep Hex Hcsv Hfuel.
  unfold run, _fetch, log. simpl.
  replace fuel with (List.length ps + S (fuel - S (List.length ps)))%nat by lia.
  rewrite (fetch_loop_replies _ _ _ _ _ _ _ _ Hrep) by reflexivity.
  rewrite (fetch_loop_raised _ _ _ _ _ _ _ _ Hex eq_refl) by reflexivity.
  rewrite append_edges_spec.
  unfold _finish, log. simpl. rewrite Hcsv. simpl.
  eexists. split; [reflexivity|]. simpl.
  rewrite !stdout_of_app, stdout_of_page_events. simpl.
  now rewrite !app_nil_r, <- app_assoc.
Qed.

(** C3 -- service errors are not caught.  When, after any number of pages,
    the executor raises something other than an interrupt, or answers with
    the error variant, the exception leaves [run] (and [main]); nothing is
    written to standard output, although the accumulator holds the pages
    fetched before the failure. *)
Theorem service_error_no_output chunk u tok svc ps svc1 cur1 svc2 resp e t0 fuel :
  replies execute chunk svc (CursorInt 0) ps svc1 cur1 ->
  execute svc1 (_params_for_cursor chunk cur1) = (svc2, resp) ->
  raised resp = Some e ->
  e <> KeyboardInterrupt ->
  tok <> "" ->
  (List.length ps < fuel)%nat ->
  exists w',
    run lts execute fuel (__init__ chunk u tok) (mk_World svc t0)
    = Some (mk_OmnivoreBackup chunk u tok (List.concat (map fst ps)), w', Raise e)
    /\ main lts execute fuel (Some tok) chunk u (mk_World svc t0)
       = Some (w', Raise e)
    /\ stdout_of (trace w') = stdout_of t0
    /\ service w' = svc2.
Proof.
  intros Hrep Hex He Hne Htok Hfuel.
  assert (Hrun : run lts execute fuel (__init__ chunk u tok) (mk_World svc t0)
    = Some (mk_OmnivoreBackup chunk u tok (List.concat (map fst ps)),
            mk_World svc2
              ((t0 ++ [EvClient u tok]) ++ page_events chunk (CursorInt 0) ps
               ++ [EvExecute (_params_for_cursor chunk cur1) resp])%list,
            Raise e)).
  { unfold run, _fetch, log. simpl.
    replace fuel with (List.length ps + S (fuel - S (List.length ps)))%nat by lia.
    rewrite (fetch_loop_replies _ _ _ _ _ _ _ _ Hrep) by reflexivity.
    rewrite (fetch_loop_raised _ _ _ _ _ _ _ _ Hex He) by reflexivity.
    rewrite append_edges_spec, <- app_assoc.
    destruct e; try reflexivity. contradiction. }
  eexists. split; [exact Hrun|]. split; [|split].
  - unfold main. destruct tok as [|c tok']; [contradiction|].
    simpl. rewrite Hrun. reflexivity.
  - simpl. rewrite !stdout_of_app, stdout_of_page_events. simpl.
    now rewrite !app_nil_r.
  - reflexivity.
Qed.

(** C8 -- missing token.  With [TOKEN] unset or empty, [main] prints the
    diagnostic and exits with status 1; no client is constructed and no
    request is executed. *)
Theorem missing_token_exits fuel env_token chunk u (w : World Service) :
  env_token = None \/ env_token = Some "" ->
  main lts execute fuel env_token chunk u w
  = Some (mk_World (service w) (trace w ++ [EvStdout (diagnostic ++ nl)]),
          Raise (SystemExit 1))
  /\ exit_status (Raise (SystemExit 1)) <> 0
  /\ requests_of (trace w ++ [EvStdout (diagnostic ++ nl)]) = requests_of (trace w)
  /\ clients_of (trace w ++ [EvStdout (diagnostic ++ nl)]) = clients_of (trace w).
Proof.
  intros [-> | ->]; (split; [reflexivity|]); (split; [discriminate|]);
    rewrite requests_of_app, clients_of_app; simpl; now rewrite !app_nil_r.
Qed.

End ProgramFacts.

(** ** The paged service *)

Lemma parse_cursor_str_of_int (n : nat) :
  parse_cursor (str_of_int (Z.of_nat n)) = Some n.
Proof.
  unfold parse_cursor, str_of_int.
  assert (Hisi : NilZero.int_of_string
                   (NilZero.string_of_int (Z.to_int (Z.of_nat n)))
                 = Some (Z.to_int (Z.of_nat n))).
  { apply NilZero.isi; destruct (Z.of_nat n); simpl; try discriminate;
      intros [= H]; now apply DecimalPos.Unsigned.to_uint_nonnil in H. }
  destruct (NilZero.string_of_int (Z.to_int (Z.of_nat n))) eqn:E.
  - discriminate Hisi.
  - rewrite Hisi. simpl. now rewrite DecimalZ.of_to, Nat2Z.id.
Qed.

(** Served in chunks of at least one record, the result set is exhausted
    after finitely many pages, which together are the records from the
    offset of the cursor on. *)
Lemma paged_replies (c : nat) (items : list SearchItemEdge) :
  (1 <= c)%nat ->
  forall rounds off cur,
    parse_cursor (after (_params_for_cursor (Z.of_nat c) cur)) = Some off ->
    (List.length items - off < rounds * c)%nat ->
    exists ps es pi cur1,
      paged_pages rounds c items off = (ps ++ [(es, pi)])%list
      /\ replies (paged_execute items) (Z.of_nat c) tt cur ps tt cur1
      /\ paged_execute items tt (_params_for_cursor (Z.of_nat c) cur1)
         = (tt, Ok (SearchSuccess es pi))
      /\ hasNextPage pi = false
      /\ List.concat (map fst (ps ++ [(es, pi)])) = skipn off items.
Proof.
  intros Hc. induction rounds as [|rounds IH]; intros off cur Hcur Hlen;
    [simpl in Hlen; lia|].
  assert (Hex : paged_execute items tt (_params_for_cursor (Z.of_nat c) cur)
                = (tt, Ok (SearchSuccess
                             (firstn c (skipn off items))
                             {| hasNextPage := (off + c <? List.length items)%nat;
                                hasPreviousPage := (0 <? off)%nat;
                                startCursor := str_of_int (Z.of_nat off);
                                endCursor := str_of_int (Z.of_nat (off + c));
                                totalCount := Z.of_nat (List.length items) |}))).
  { unfold paged_execute. rewrite Hcur. simpl first. now rewrite Nat2Z.id. }
  simpl paged_pages. cbv zeta. simpl hasNextPage.
  destruct (off + c <? List.length items)%nat eqn:Hmore.
  - apply Nat.ltb_lt in Hmore.
    destruct (IH (off + c)%nat (CursorStr (str_of_int (Z.of_nat (off + c)))))
      as (ps & es & pi & cur1 & Hpages & Hrep & Hlast & Hflag & Hcat).
    + simpl. apply parse_cursor_str_of_int.
    + simpl in Hlen. lia.
    + rewrite Hpages.
      eexists (_ :: ps), es, pi, cur1. split; [reflexivity|]. split.
      { econstructor; [exact Hex | reflexivity | exact Hrep]. }
      split; [exact Hlast|]. split; [exact Hflag|].
      simpl. simpl in Hcat. rewrite Hcat.
      rewrite Nat.add_comm, <- skipn_skipn. apply firstn_skipn.
  - apply Nat.ltb_ge in Hmore.
    eexists [], _, _, cur. split; [reflexivity|]. split; [constructor|].
    split; [exact Hex|]. split; [reflexivity|].
    simpl. rewrite app_nil_r. apply firstn_all2. rewrite length_skipn. lia.
Qed.

(** Pagination over the paged service: for every chunk size of at least
    one and every finite result set, the loop terminates and returns the
    records of the result set, each once and in order. *)
Theorem fetch_paged_service_complete (chunk : Z) (items : list SearchItemEdge)
    (u tok : string) (t0 : list event) :
  1 <= chunk ->
  exists fuel0 evs,
    forall fuel, (fuel0 <= fuel)%nat ->
      _fetch (paged_execute items) fuel (__init__ chunk u tok) (mk_World tt t0)
      = Some (mk_OmnivoreBackup chunk u tok items, mk_World tt (t0 ++ evs), Ok tt).
Proof.
  intros Hchunk.
  assert (Hc : (1 <= Z.to_nat chunk)%nat) by lia.
  assert (Hlen : (List.length items - 0 < S (List.length items) * Z.to_nat chunk)%nat)
    by nia.
  destruct (paged_replies (Z.to_nat chunk) items Hc
              (S (List.length items)) O (CursorInt 0) eq_refl Hlen)
    as (ps & es & pi & cur1 & _ & Hrep & Hlast & Hflag & Hcat).
  clear Hc Hlen.
  rewrite Z2Nat.id in * by lia. change (skipn 0 items) with items in Hcat.
  exists (S (List.length ps)). eexists. intros fuel Hfuel.
  assert (Hlt : (List.length ps < fuel)%nat) by lia.
  rewrite (fetch_served _ _ chunk u tok tt ps tt cur1 es pi tt t0 fuel
             Hrep Hlast Hflag Hlt).
  rewrite <- Hcat. reflexivity.
Qed.

(** The bound on the chunk size is needed: asked for zero records, the
    paged service never advances, and on a non-empty result set the loop
    does not end. *)
Lemma fetch_paged_chunk_zero_diverges (items : list SearchItemEdge)
    (u tok : string) (t0 : list event) :
  items <> [] ->
  forall fuel,
    _fetch (paged_execute items) fuel (__init__ 0 u tok) (mk_World tt t0) = None.
Proof.
  intros Hitems fuel. unfold _fetch.
  assert (Hloop : forall cur self t,
             chunksize self = 0 ->
             parse_cursor (after (_params_for_cursor 0 cur)) = Some O ->
             fetch_loop (paged_execute items) fuel true cur self (mk_World tt t)
             = None).
  { induction fuel as [|fuel IH]; intros cur self t Hc Hcur; [reflexivity|].
    simpl. rewrite Hc. unfold paged_execute. rewrite Hcur. simpl.
    destruct items as [|e items']; [contradiction|]. simpl.
    apply IH; [exact Hc | reflexivity]. }
  apply Hloop; reflexivity.
Qed.

(** ** The specification's scenarios *)

(** C2 -- interrupt handling.  The service is interrupted after one page of
    two records.  [run] ends normally and the accumulator holds exactly
    these two records, but their rendering is written to standard output
    twice: once by the handler and once by the statement after the
    [try]. *)
Theorem run_interrupt_emits_csv_twice :
  exists w',
    run utc_platform scripted_execute 2 sample_backup
        (mk_World interrupted_script [])
    = Some (mk_OmnivoreBackup 2 sample_url "secret" (fst sample_page1), w', Ok tt)
    /\ _generate_csv utc_platform (fst sample_page1) = Ok sample_csv_page1
    /\ stdout_of (trace w') = [sample_csv_page1 ++ nl; sample_csv_page1 ++ nl].
Proof.
  eexists. split; [vm_compute; reflexivity|].
  split; vm_compute; reflexivity.
Qed.

Lemma sample_replies (next : result SearchResult) :
  replies scripted_execute 2 [page_response sample_page1; next] (CursorInt 0)
          [sample_page1] [next] (CursorStr "c1").
Proof.
  eapply replies_cons; [reflexivity | reflexivity | apply replies_nil].
Qed.

(** Two pages of two and one records, fetched with chunk size two: three
    edges in order, two requests, the second after the cursor [c1]. *)
Lemma fetch_pagination_complete_witness :
  _fetch scripted_execute 2 sample_backup (mk_World sample_script [])
  = Some (mk_OmnivoreBackup 2 sample_url "secret" sample_items,
          mk_World []
            [EvExecute (mk_Params "" 2 "") (page_response sample_page1);
             EvExecute (mk_Params "" 2 "c1") (page_response sample_page2)],
          Ok tt)
  /\ _fetch scripted_execute 1 sample_backup (mk_World sample_script []) = None.
Proof.
  destruct (fetch_pagination_complete _ scripted_execute 2 sample_url "secret"
              sample_script [sample_page1] _ _
              (fst sample_page2) (snd sample_page2) [] []
              (sample_replies (page_response sample_page2)) eq_refl eq_refl)
    as (Hdone & Hstarved & _).
  split; [exact (Hdone 2%nat (le_n 2)) | exact (Hstarved 1%nat (le_n 2))].
Defined.

(** The error variant on the second request: [KeyError], nothing printed. *)
Lemma service_error_no_output_witness :
  exists w',
    run utc_platform scripted_execute 2 sample_backup (mk_World failing_script [])
    = Some (mk_OmnivoreBackup 2 sample_url "secret" (fst sample_page1), w',
            Raise (KeyError "pageInfo"))
    /\ main utc_platform scripted_execute 2 (Some "secret") 2 sample_url
            (mk_World failing_script [])
       = Some (w', Raise (KeyError "pageInfo"))
    /\ stdout_of (trace w') = []
    /\ service w' = [].
Proof.
  apply (service_error_no_output utc_platform _ scripted_execute 2 sample_url
           "secret" failing_script [sample_page1] _ _ []
           (Ok (SearchError ["UNAUTHORIZED"])) (KeyError "pageInfo") [] 2%nat
           (sample_replies (Ok (SearchError ["UNAUTHORIZED"]))) eq_refl eq_refl).
  - discriminate.
  - discriminate.
  - apply le_n.
Defined.

(** The first page renders as a header and two rows. *)
Lemma generate_csv_shape_witness :
  exists rows,
    List.length rows = 2%nat
    /\ Forall2 (row_of utc_platform) (fst sample_page1) rows
    /\ sample_csv_page1
       = "url,state,labels,saved_at,published_at" ++ nl
         ++ String.concat "" (map (fun r => r ++ nl) rows).
Proof.
  apply (generate_csv_shape utc_platform (fst sample_page1) sample_csv_page1).
  vm_compute. reflexivity.
Defined.

(** The labels [a], [b] of a sample record. *)
Lemma labels_field_serialization_witness :
  nth 2 (sample_fields "https://x.org/1" "1685620800000") ""
  = String dquote ("[a,b]" ++ String dquote "").
Proof.
  refine (eq_trans
            (proj1 (labels_field_serialization utc_platform
                      (sample_item "https://x.org/1" (Some ""))
                      (sample_fields "https://x.org/1" "1685620800000") _)) _).
  - vm_compute. reflexivity.
  - reflexivity.
Defined.

(** The sample records whose [publishedAt] is empty or absent, saved at
    [2023-06-01T12:00:00Z]: both fields are [1685620800000]. *)
Lemma published_at_fallback_witness :
  csv_fields utc_platform (sample_item "https://x.org/1" (Some ""))
  = Ok (sample_fields "https://x.org/1" "1685620800000")
  /\ csv_fields utc_platform (sample_item "https://x.org/2" None)
     = Ok (sample_fields "https://x.org/2" "1685620800000")
  /\ csv_fields utc_platform (sample_item "https://x.org/3" (Some "2023-01-01T00:00:00Z"))
     = Ok (sample_fields "https://x.org/3" "1672531200000").
Proof.
  split; [|split].
  - apply (proj1 (published_at_fallback utc_platform
                    (sample_item "https://x.org/1" (Some "")))
                 "1685620800000" (or_intror eq_refl)).
    vm_compute. reflexivity.
  - apply (proj1 (published_at_fallback utc_platform
                    (sample_item "https://x.org/2" None))
                 "1685620800000" (or_introl eq_refl)).
    vm_compute. reflexivity.
  - apply (proj1 (proj2 (published_at_fallback utc_platform
                    (sample_item "https://x.org/3" (Some "2023-01-01T00:00:00Z"))))
                 "2023-01-01T00:00:00Z" "1685620800000" "1672531200000" eq_refl).
    + discriminate.
    + vm_compute. reflexivity.
    + vm_compute. reflexivity.
Defined.

(** No token in the environment. *)
Lemma missing_token_exits_witness :
  main utc_platform scripted_execute 2 None 100 sample_url
       (mk_World sample_script [])
  = Some (mk_World sample_script [EvStdout (diagnostic ++ nl)],
          Raise (SystemExit 1)).
Proof.
  exact (proj1 (missing_token_exits utc_platform _ scripted_execute 2 None 100
                  sample_url (mk_World sample_script []) (or_introl eq_refl))).
Defined.

(** Overlapping pages: the record served twice is accumulated twice and
    rendered twice. *)
Lemma accumulator_append_only_witness :
  fetch_loop scripted_execute 2 true (CursorInt 0) sample_backup
             (mk_World overlapping_script [])
  = Some (mk_OmnivoreBackup 2 sample_url "secret"
            (firstn 2 sample_items ++ skipn 1 sample_items),
          mk_World []
            [EvExecute (mk_Params "" 2 "") (page_response sample_page1);
             EvExecute (mk_Params "" 2 "c1")
               (page_response (skipn 1 sample_items, mk_PageInfo false true "c1" "c2" 3))],
          Ok tt)
  /\ count_occ edge_eq_dec (firstn 2 sample_items ++ skipn 1 sample_items)
               (sample_item "https://x.org/2" None) = 2%nat
  /\ _generate_csv utc_platform (firstn 2 sample_items ++ skipn 1 sample_items)
     = Ok (sample_csv_page1
           ++ sample_row "https://x.org/2" "1685620800000" ++ nl
           ++ sample_row "https://x.org/3" "1672531200000" ++ nl).
Proof.
  destruct (accumulator_append_only utc_platform _ scripted_execute
              sample_backup overlapping_script (CursorInt 0) [sample_page1] _ _ []
              (page_response (skipn 1 sample_items, mk_PageInfo false true "c1" "c2" 3))
              []
              (sample_replies _) eq_refl)
    as (_ & _ & Hfinal & Hcount & Hlines & _).
  - intros es pi [= <- <-]. reflexivity.
  - split; [exact (Hfinal 2%nat (le_n 2))|]. split.
    + refine (eq_trans (Hcount (sample_item "https://x.org/2" None)) _).
      vm_compute. reflexivity.
    + apply (Hlines [(sample_row "https://x.org/1" "1685620800000" ++ nl)%string;
                     (sample_row "https://x.org/2" "1685620800000" ++ nl)%string;
                     (sample_row "https://x.org/2" "1685620800000" ++ nl)%string;
                     (sample_row "https://x.org/3" "1672531200000" ++ nl)%string]).
      repeat constructor.
Defined.

(** * Further properties *)

(** ** binary64 arithmetic on integers

    Facts about the executable specification of binary64: rounding is the
    identity on values that fit in the 53 bits of the mantissa. *)

Lemma digits2_pos_size (p : positive) : digits2_pos p = Pos.size p.
Proof. induction p; simpl; congruence. Qed.

Lemma digits_bounds (p : positive) :
  2 ^ (Zpos (digits2_pos p) - 1) <= Zpos p < 2 ^ Zpos (digits2_pos p).
Proof.
  rewrite digits2_pos_size. split.
  - pose proof (Pos.size_le p) as H.
    apply Pos2Z.pos_le_pos in H. rewrite Pos2Z.inj_pow in H.
    change (Z.pos p~0) with (2 * Z.pos p) in H.
    replace (Z.pos (Pos.size p)) with (Z.succ (Z.pos (Pos.size p) - 1)) in H by lia.
    rewrite Z.pow_succ_r in H by lia. lia.
  - pose proof (Pos.size_gt p) as H.
    apply Pos2Z.pos_lt_pos in H. now rewrite Pos2Z.inj_pow in H.
Qed.

Lemma digits_unique (p : positive) (d : Z) :
  2 ^ (d - 1) <= Zpos p < 2 ^ d -> Zpos (digits2_pos p) = d.
Proof.
  intros [Hlo Hhi]. pose proof (digits_bounds p) as [Hlo' Hhi'].
  assert (0 < d).
  { destruct (Z.ltb_spec 0 d); [assumption|].
    assert (2 ^ d <= 2 ^ 0) by (destruct (Z.ltb_spec d 0);
      [rewrite Z.pow_neg_r by assumption; simpl; lia | apply Z.pow_le_mono_r; lia]).
    simpl in *. lia. }
  destruct (Z.lt_trichotomy (Zpos (digits2_pos p)) d) as [Hlt | [Heq | Hgt]];
    [|assumption|].
  - assert (2 ^ Zpos (digits2_pos p) <= 2 ^ (d - 1)) by (apply Z.pow_le_mono_r; lia).
    lia.
  - assert (2 ^ d <= 2 ^ (Zpos (digits2_pos p) - 1)) by (apply Z.pow_le_mono_r; lia).
    lia.
Qed.

Lemma digits_mul_pow2 (a m : positive) (k : Z) :
  0 <= k -> Zpos m = Zpos a * 2 ^ k ->
  Zpos (digits2_pos m) = Zpos (digits2_pos a) + k.
Proof.
  intros Hk Hm. apply digits_unique. rewrite Hm.
  pose proof (digits_bounds a) as [Hlo Hhi].
  replace (Zpos (digits2_pos a) + k - 1) with ((Zpos (digits2_pos a) - 1) + k) by lia.
  rewrite !Z.pow_add_r by lia.
  assert (0 < 2 ^ k) by (apply Z.pow_pos_nonneg; lia).
  split; nia.
Qed.

Lemma iter_pos_nat {A : Type} (f : A -> A) (p : positive) (x : A) :
  iter_pos f p x = Nat.iter (Pos.to_nat p) f x.
Proof.
  revert x. induction p as [p IH | p IH |]; intros x.
  - change (iter_pos f p~1 x) with (iter_pos f p (iter_pos f p (f x))).
    rewrite !IH, Pos2Nat.inj_xI, Nat.iter_succ_r, <- Nat.iter_add.
    f_equal. lia.
  - change (iter_pos f p~0 x) with (iter_pos f p (iter_pos f p x)).
    rewrite !IH, Pos2Nat.inj_xO, <- Nat.iter_add. f_equal. lia.
  - reflexivity.
Qed.

Lemma shr_1_even (m : Z) :
  0 < m -> shr_1 (exact_record (2 * m)) = exact_record m.
Proof. destruct m; try lia. reflexivity. Qed.

Lemma iter_shr_1_exact (n : nat) :
  forall m, 0 < m ->
    Nat.iter n shr_1 (exact_record (m * 2 ^ Z.of_nat n)) = exact_record m.
Proof.
  induction n as [|n IH]; intros m Hm.
  - simpl. now rewrite Z.mul_1_r.
  - rewrite Nat.iter_succ_r, Nat2Z.inj_succ, Z.pow_succ_r by lia.
    replace (m * (2 * 2 ^ Z.of_nat n)) with (2 * (m * 2 ^ Z.of_nat n)) by lia.
    rewrite shr_1_even; [apply IH; assumption|].
    assert (0 < 2 ^ Z.of_nat n) by (apply Z.pow_pos_nonneg; lia). nia.
Qed.

Lemma shr_exact (m e n : Z) :
  0 < m -> 0 <= n ->
  shr (exact_record (m * 2 ^ n)) e n = (exact_record m, e + n).
Proof.
  intros Hm Hn. destruct n as [|p|p]; try lia.
  - simpl. now rewrite Z.mul_1_r, Z.add_0_r.
  - unfold shr. rewrite iter_pos_nat.
    rewrite <- (positive_nat_Z p) at 1. now rewrite iter_shr_1_exact.
Qed.

Lemma fexp_normal (e : Z) : -1021 <= e -> fexp prec emax e = e - 53.
Proof. intros H. unfold fexp, emin, prec, emax. lia. Qed.

(** Rounding a value that fits in 53 bits changes nothing: [m = a * 2^k]
    with [a] of [d <= 53] digits is brought to a mantissa of 53 digits. *)
Lemma binary_round_aux_exact (s : bool) (m a : positive) (k e : Z) :
  let d := Zpos (digits2_pos a) in
  Zpos m = Zpos a * 2 ^ k ->
  d <= 53 <= d + k ->
  -1021 <= d + k + e <= 1024 ->
  binary_round_aux prec emax s (Zpos m) e loc_Exact
  = S754_finite s (Z.to_pos (Zpos a * 2 ^ (53 - d))) (e + (d + k - 53)).
Proof.
  intros d Hm Hd He.
  assert (Hk : 0 <= k) by (pose proof (digits_bounds a); lia).
  set (n := d + k - 53).
  set (m' := Zpos a * 2 ^ (53 - d)).
  assert (Hm' : 0 < m') by (unfold m'; assert (0 < 2 ^ (53 - d)) by (apply Z.pow_pos_nonneg; lia); lia).
  assert (Hsplit : Zpos m = m' * 2 ^ n).
  { rewrite Hm. unfold m', n. rewrite <- Z.mul_assoc, <- Z.pow_add_r by lia.
    f_equal. f_equal. lia. }
  assert (Hdm : Zpos (digits2_pos m) = d + k) by (apply (digits_mul_pow2 a); assumption).
  unfold binary_round_aux, shr_fexp.
  change (Zdigits2 (Zpos m)) with (Zpos (digits2_pos m)).
  rewrite Hdm, fexp_normal by lia.
  replace (d + k + e - 53 - e) with n by (unfold n; lia).
  change (shr_record_of_loc (Zpos m) loc_Exact) with (exact_record (Zpos m)).
  rewrite Hsplit, shr_exact by (unfold n; lia).
  cbn [exact_record shr_m loc_of_shr_record round_nearest_even].
  destruct m' as [|pm'|] eqn:Epm; try lia.
  assert (Hdm' : Zpos (digits2_pos pm') = 53).
  { rewrite (digits_mul_pow2 a pm' (53 - d)); [fold d; lia | lia |].
    rewrite <- Epm. reflexivity. }
  change (Zdigits2 (Zpos pm')) with (Zpos (digits2_pos pm')).
  rewrite Hdm', fexp_normal by (unfold n; lia).
  replace (53 + (e + n) - 53 - (e + n)) with 0 by lia.
  cbn [shr_record_of_loc shr shr_m].
  replace (e + n <=? emax - prec) with true
    by (symmetry; apply Z.leb_le; unfold n, emax, prec; lia).
  reflexivity.
Qed.

Lemma digits_lt_pow2 (n : positive) (b : Z) :
  0 <= b -> Zpos n < 2 ^ b -> Zpos (digits2_pos n) <= b.
Proof.
  intros Hb Hn. pose proof (digits_bounds n) as [Hlo _].
  destruct (Z.leb_spec (Zpos (digits2_pos n)) b); [assumption|].
  assert (2 ^ b <= 2 ^ (Zpos (digits2_pos n) - 1)) by (apply Z.pow_le_mono_r; lia).
  lia.
Qed.

Lemma pos_iter_xO (a n : positive) :
  Zpos (Pos.iter xO a n) = Zpos a * 2 ^ Zpos n.
Proof.
  induction n as [|n IH] using Pos.peano_ind.
  - simpl. lia.
  - rewrite Pos.iter_succ, Pos2Z.inj_succ, Z.pow_succ_r by lia.
    change (Zpos (Pos.iter xO a n)~0) with (2 * Zpos (Pos.iter xO a n)).
    rewrite IH. lia.
Qed.

Lemma binary_round_canonical (s : bool) (n : positive) :
  Zpos (digits2_pos n) <= 53 ->
  binary_round prec emax s n 0 = canonical_float s n.
Proof.
  intros Hd. unfold binary_round, shl_align.
  rewrite Z.add_0_r, fexp_normal by lia. rewrite Z.sub_0_r.
  destruct (Zpos (digits2_pos n) - 53) as [|p|p] eqn:Ed; try lia.
  - rewrite (binary_round_aux_exact s n n 0) by (rewrite ?Z.mul_1_r; lia || reflexivity).
    unfold canonical_float. f_equal; lia.
  - rewrite (binary_round_aux_exact s _ n (Zpos p)).
    + unfold canonical_float. f_equal; lia.
    + apply pos_iter_xO.
    + lia.
    + lia.
Qed.

Lemma float_of_int_canonical (z : Z) :
  Z.abs z < 2 ^ 53 ->
  float_of_int z
  = match z with
    | Z0 => S754_zero false
    | Zpos n => canonical_float false n
    | Zneg n => canonical_float true n
    end.
Proof.
  intros Hz. destruct z as [|n|n]; [reflexivity| |];
    apply binary_round_canonical, digits_lt_pow2; simpl in Hz; lia.
Qed.

Lemma int_of_canonical (s : bool) (n : positive) :
  Zpos (digits2_pos n) <= 53 ->
  int_of_float (canonical_float s n) = Ok (if s then - Zpos n else Zpos n).
Proof.
  intros Hd. unfold canonical_float, int_of_float.
  set (d := Zpos (digits2_pos n)) in *.
  assert (Hp : 0 < 2 ^ (53 - d)) by (apply Z.pow_pos_nonneg; lia).
  rewrite Z2Pos.id by lia.
  destruct (Z.leb_spec 0 (d - 53)).
  - replace (d - 53) with 0 by lia. replace (53 - d) with 0 by lia.
    rewrite Z.pow_0_r, Z.mul_1_r. reflexivity.
  - rewrite Z.shiftr_div_pow2 by lia.
    replace (- (d - 53)) with (53 - d) by lia.
    rewrite Z.div_mul by lia. reflexivity.
Qed.

Lemma f1e3_value : f1e3 = S754_finite false 8796093022208000 (-43).
Proof. reflexivity. Qed.

(** The product of a float that holds an integer below [2^43] with [1e3]
    is the float that holds the thousandfold integer. *)
Lemma mul_1e3_exact (s : bool) (n : positive) :
  Zpos n < 2 ^ 43 ->
  SFmul prec emax (canonical_float s n) f1e3 = canonical_float s (n * 1000).
Proof.
  intros Hn. rewrite f1e3_value. unfold canonical_float at 1, SFmul.
  rewrite xorb_false_r.
  set (d := Zpos (digits2_pos n)).
  set (d' := Zpos (digits2_pos (n * 1000))).
  assert (Hd : d <= 43) by (apply digits_lt_pow2; lia).
  assert (Hd' : d' <= 53) by (apply digits_lt_pow2; lia).
  assert (Hdd : d <= d').
  { pose proof (digits_bounds n) as [Hlo _]. fold d in Hlo.
    pose proof (digits_bounds (n * 1000)) as [_ Hhi]. fold d' in Hhi.
    destruct (Z.leb_spec d d'); [assumption|].
    assert (2 ^ d' <= 2 ^ (d - 1)) by (apply Z.pow_le_mono_r; lia). lia. }
  assert (Hp : 0 < 2 ^ (53 - d)) by (apply Z.pow_pos_nonneg; lia).
  rewrite (binary_round_aux_exact s _ (n * 1000) (96 - d)); fold d'.
  - unfold canonical_float. fold d'. f_equal; lia.
  - rewrite Pos2Z.inj_mul, Z2Pos.id by lia.
    change (Zpos 8796093022208000) with (1000 * 2 ^ 43).
    rewrite Pos2Z.inj_mul. change (Zpos 1000) with 1000.
    replace (96 - d) with ((53 - d) + 43) by lia.
    rewrite Z.pow_add_r by lia. lia.
  - lia.
  - lia.
Qed.

Lemma digits_mul_1e6 (n : positive) :
  let d := Zpos (digits2_pos n) in
  let d1 := Zpos (digits2_pos (n * 1000000)) in
  d + 19 <= d1 <= d + 20.
Proof.
  intros d d1.
  pose proof (digits_bounds n) as [Hlo Hhi]. fold d in Hlo, Hhi.
  pose proof (digits_bounds (n * 1000000)) as [Hlo1 Hhi1]. fold d1 in Hlo1, Hhi1.
  rewrite Pos2Z.inj_mul in Hlo1, Hhi1. change (Zpos 1000000) with 1000000 in *.
  assert (Hd : 0 < d) by (unfold d; lia).
  assert (Hp : 0 < 2 ^ (d - 1)) by (apply Z.pow_pos_nonneg; lia).
  assert (Hdd : 2 ^ d = 2 * 2 ^ (d - 1)).
  { rewrite <- Z.pow_succ_r by lia. f_equal. lia. }
  split.
  - destruct (Z.leb_spec (d + 19) d1); [assumption|].
    assert (Hle : 2 ^ d1 <= 2 ^ ((d - 1) + 19)) by (apply Z.pow_le_mono_r; lia).
    rewrite Z.pow_add_r in Hle by lia. change (2 ^ 19) with 524288 in Hle. lia.
  - destruct (Z.leb_spec d1 (d + 20)); [assumption|].
    assert (Hle : 2 ^ (d + 20) <= 2 ^ (d1 - 1)) by (apply Z.pow_le_mono_r; lia).
    rewrite Z.pow_add_r in Hle by lia. change (2 ^ 20) with 1048576 in Hle. lia.
Qed.

Lemma div_eucl_exact (q b : Z) : 0 < b -> Z.div_eucl (q * b) b = (q, 0).
Proof.
  intros Hb. destruct (Z.div_eucl (q * b) b) as [q' r'] eqn:E.
  assert (Hq : q' = q * b / b) by (unfold Z.div; now rewrite E).
  assert (Hr : r' = (q * b) mod b) by (unfold Z.modulo; now rewrite E).
  rewrite Z.div_mul in Hq by lia. rewrite Z.mod_mul in Hr by lia. congruence.
Qed.

(** The quotient of a whole number of seconds, given in microseconds, by
    [10**6] is the float that holds the number of seconds. *)
Lemma div_1e6_exact (s : bool) (n : positive) :
  Zpos n < 2 ^ 43 ->
  SFdiv prec emax (S754_finite s (n * 1000000) 0) (S754_finite false 1000000 0)
  = canonical_float s n.
Proof.
  intros Hn.
  pose proof (digits_mul_1e6 n) as Hd1. cbv zeta in Hd1.
  set (d := Zpos (digits2_pos n)) in *.
  set (d1 := Zpos (digits2_pos (n * 1000000))) in *.
  assert (Hd : d <= 43) by (apply digits_lt_pow2; lia).
  assert (0 < d) by (unfold d; lia).
  assert (Hcore : SFdiv_core_binary prec emax (Zpos (n * 1000000)) 0 (Zpos 1000000) 0
                  = (Zpos n * 2 ^ (73 - d1), d1 - 73, loc_Exact)).
  { unfold SFdiv_core_binary.
    change (Zdigits2 (Zpos (n * 1000000))) with d1.
    change (Zdigits2 (Zpos 1000000)) with 20.
    rewrite !Z.add_0_r, fexp_normal by lia.
    replace (Z.min (d1 - 20 - 53) (0 - 0)) with (d1 - 73) by lia.
    replace (0 - 0 - (d1 - 73)) with (73 - d1) by lia.
    destruct (73 - d1) as [|p|p] eqn:Ej; try lia.
    rewrite Z.shiftl_mul_pow2 by lia.
    rewrite Pos2Z.inj_mul.
    replace (Zpos n * Zpos 1000000 * 2 ^ Zpos p)
      with ((Zpos n * 2 ^ Zpos p) * Zpos 1000000) by lia.
    rewrite div_eucl_exact by lia. reflexivity. }
  unfold SFdiv. rewrite Hcore, xorb_false_r.
  assert (Hp : 0 < 2 ^ (73 - d1)) by (apply Z.pow_pos_nonneg; lia).
  destruct (Zpos n * 2 ^ (73 - d1)) as [|m|m] eqn:Em; try lia.
  rewrite (binary_round_aux_exact s m n (73 - d1)); fold d.
  - unfold canonical_float. fold d. f_equal; lia.
  - symmetry. exact Em.
  - lia.
  - lia.
Qed.

(** [int(t * 1e3)] for the timestamp [t] of a whole number of seconds. *)
Lemma whole_seconds_ms (S : Z) :
  Z.abs S < 2 ^ 43 ->
  (t <- int_true_divide (1000000 * S) 1000000 ;;
   int_of_float (SFmul prec emax t f1e3)) = Ok (1000 * S).
Proof.
  intros HS. destruct S as [|n|n]; [reflexivity| |].
  - change (1000000 * Zpos n) with (Zpos (1000000 * n)).
    rewrite Pos.mul_comm. unfold int_true_divide, bind.
    rewrite div_1e6_exact, mul_1e3_exact by (simpl in HS; lia).
    rewrite int_of_canonical by (apply digits_lt_pow2; simpl in HS; lia).
    f_equal. lia.
  - change (1000000 * Zneg n) with (Zneg (1000000 * n)).
    rewrite Pos.mul_comm. unfold int_true_divide, bind.
    rewrite div_1e6_exact, mul_1e3_exact by (simpl in HS; lia).
    rewrite int_of_canonical by (apply digits_lt_pow2; simpl in HS; lia).
    f_equal. lia.
Qed.

(** ** What the parser accepts *)

Lemma is_digit_value (c : ascii) :
  is_digit c = true -> 0 <= digit_value c <= 9.
Proof.
  unfold is_digit, digit_value. intros H.
  apply andb_true_iff in H as [H1 H2].
  apply Z.leb_le in H1, H2. lia.
Qed.

Lemma parse_digits_bounds (n : nat) :
  forall acc s v r,
    parse_digits n acc s = Some (v, r) ->
    acc * 10 ^ Z.of_nat n <= v < (acc + 1) * 10 ^ Z.of_nat n.
Proof.
  induction n as [|n IH]; intros acc s v r H.
  - simpl in H. injection H as <- <-. simpl. lia.
  - cbn [parse_digits] in H. destruct s as [|c s]; [discriminate|].
    destruct (is_digit c) eqn:Hc; [|discriminate].
    apply is_digit_value in Hc. apply IH in H.
    rewrite Nat2Z.inj_succ, Z.pow_succ_r by lia.
    assert (0 < 10 ^ Z.of_nat n) by (apply Z.pow_pos_nonneg; lia).
    set (P := 10 ^ Z.of_nat n) in *. set (dv := digit_value c) in *.
    assert (0 <= dv * P) by nia. assert (dv * P <= 9 * P) by nia.
    replace ((10 * acc + dv) * P) with (10 * acc * P + dv * P) in H by ring.
    replace ((10 * acc + dv + 1) * P) with (10 * acc * P + dv * P + P) in H by ring.
    replace (acc * (10 * P)) with (10 * acc * P) by ring.
    replace ((acc + 1) * (10 * P)) with (10 * acc * P + 10 * P) by ring.
    lia.
Qed.

Lemma parse_fraction_bounds (s : string) (us : Z) :
  parse_fraction s = Some us -> 0 <= us < 1000000.
Proof.
  unfold parse_fraction. intros H.
  destruct (String.length s) as [|[|[|[|[|[|[|n]]]]]]]; try discriminate.
  - destruct (parse_digits 3 0 s) as [[f r]|] eqn:E; [|discriminate].
    simpl in H. injection H as <-. apply parse_digits_bounds in E. simpl in E. lia.
  - destruct (parse_digits 6 0 s) as [[f r]|] eqn:E; [|discriminate].
    simpl in H. injection H as <-. apply parse_digits_bounds in E. simpl in E. lia.
Qed.

Lemma parse_hh_mm_ss_ff_bounds (s : string) (h m sec us : Z) :
  parse_hh_mm_ss_ff s = Some (h, m, sec, us) ->
  0 <= h < 100 /\ 0 <= m < 100 /\ 0 <= sec < 100 /\ 0 <= us < 1000000.
Proof.
  unfold parse_hh_mm_ss_ff. intros H.
  destruct (parse_digits 2 0 s) as [[h' s1]|] eqn:Eh; [|discriminate].
  apply parse_digits_bounds in Eh. simpl in Eh. cbn [obind] in H.
  destruct s1 as [|c1 s1]; [injection H as <- <- <- <-; lia|].
  destruct (expect ":" (String c1 s1)) as [s2|]; [|discriminate]. cbn [obind] in H.
  destruct (parse_digits 2 0 s2) as [[m' s3]|] eqn:Em; [|discriminate].
  apply parse_digits_bounds in Em. simpl in Em. cbn [obind] in H.
  destruct s3 as [|c3 s3]; [injection H as <- <- <- <-; lia|].
  destruct (expect ":" (String c3 s3)) as [s4|]; [|discriminate]. cbn [obind] in H.
  destruct (parse_digits 2 0 s4) as [[sec' s5]|] eqn:Es; [|discriminate].
  apply parse_digits_bounds in Es. simpl in Es. cbn [obind] in H.
  destruct s5 as [|c5 s5]; [injection H as <- <- <- <-; lia|].
  destruct (expect "." (String c5 s5)) as [s6|]; [|discriminate]. cbn [obind] in H.
  destruct (parse_fraction s6) as [us'|] eqn:Ef; [|discriminate].
  apply parse_fraction_bounds in Ef. cbn [obind] in H.
  injection H as <- <- <- <-. lia.
Qed.

Lemma parse_tz_bounds (negative : bool) (s : string) (off : Z) :
  parse_tz negative s = Some off -> - day_us < off < day_us.
Proof.
  unfold parse_tz. intros H.
  assert (Hgen : obind (parse_hh_mm_ss_ff s)
            (fun '(h, m, sec, us) =>
               let tzoffset := h * 3600 + m * 60 + sec in
               if tzoffset =? 0 then Some 0 else
               let off := tzoffset * 1000000 + us in
               let off := if negative then - off else off in
               if (- day_us <? off) && (off <? day_us) then Some off else None)
            = Some off -> - day_us < off < day_us).
  { clear H. intros H.
    destruct (parse_hh_mm_ss_ff s) as [[[[h m] sec] us]|]; [|discriminate].
    cbn [obind] in H. cbv zeta in H.
    destruct (h * 3600 + m * 60 + sec =? 0);
      [injection H as <-; unfold day_us; lia|].
    match type of H with (if ?b then _ else _) = _ => destruct b eqn:E end;
      [|discriminate].
    injection H as <-. apply andb_true_iff in E as [E1 E2].
    apply Z.ltb_lt in E1, E2. lia. }
  destruct (String.length s) as [|[|[|[|[|[|[|[|[|[|[|[|[|[|[|[|n]]]]]]]]]]]]]]]];
    try discriminate; exact (Hgen H).
Qed.

Lemma days_in_month_le (y m : Z) : days_in_month y m <= 31.
Proof.
  unfold days_in_month.
  destruct (m =? 2); [destruct (is_leap y); lia|].
  destruct ((m =? 4) || (m =? 6) || (m =? 9) || (m =? 11)); lia.
Qed.

Lemma days_before_month_bounds (y m : Z) :
  1 <= m <= 12 -> 0 <= days_before_month y m <= 335.
Proof.
  intros Hm. unfold days_before_month.
  assert (Hc : m = 1 \/ m = 2 \/ m = 3 \/ m = 4 \/ m = 5 \/ m = 6 \/ m = 7
               \/ m = 8 \/ m = 9 \/ m = 10 \/ m = 11 \/ m = 12) by lia.
  destruct (is_leap y);
    repeat destruct Hc as [-> | Hc]; try subst m; simpl; lia.
Qed.

Lemma ymd2ord_bounds (y m d : Z) :
  1 <= y <= 9999 -> 1 <= m <= 12 -> 1 <= d <= 31 ->
  1 <= ymd2ord y m d <= 3652425.
Proof.
  intros Hy Hm Hd. unfold ymd2ord, days_before_year.
  pose proof (days_before_month_bounds y m Hm). cbv zeta.
  Z.div_mod_to_equations. lia.
Qed.

(** The fields of a parsed value are those of a valid date and time. *)
Lemma parse_isoformat_valid (s : string) (d : datetime) :
  parse_isoformat s = Some d ->
  1 <= year d <= 9999 /\ 1 <= month d <= 12 /\ 1 <= day d <= 31
  /\ 0 <= hour d < 24 /\ 0 <= minute d < 60 /\ 0 <= second d < 60
  /\ 0 <= microsecond d < 1000000
  /\ (forall off, tzinfo d = Some off -> - day_us < off < day_us).
Proof.
  unfold parse_isoformat. intros H.
  destruct (parse_isoformat_date s) as [[[[y m] dd] rest]|]; [|discriminate].
  cbn [obind] in H.
  destruct (valid_date y m dd) eqn:Ev; [|discriminate]. cbn [negb] in H.
  unfold valid_date in Ev. repeat rewrite andb_true_iff in Ev.
  destruct Ev as [[[[[Ey1 Ey2] Em1] Em2] Ed1] Ed2].
  apply Z.leb_le in Ey1, Ey2, Em1, Em2, Ed1, Ed2.
  pose proof (days_in_month_le y m).
  destruct rest as [|sep tstr].
  - injection H as <-. simpl. do 7 (split; [lia|]). discriminate.
  - destruct (split_tz tstr) as [t z].
    destruct (parse_hh_mm_ss_ff t) as [[[[h mi] sec] us]|] eqn:Et; [|discriminate].
    apply parse_hh_mm_ss_ff_bounds in Et. cbn [obind] in H.
    destruct (valid_time h mi sec us) eqn:Evt; [|discriminate]. cbn [negb] in H.
    unfold valid_time in Evt. repeat rewrite andb_true_iff in Evt.
    destruct Evt as [[[Eh Emi] Es] Eus]. apply Z.ltb_lt in Eh, Emi, Es, Eus.
    destruct z as [[negative zs]|].
    + destruct (parse_tz negative zs) as [off|] eqn:Ez; [|discriminate].
      apply parse_tz_bounds in Ez. cbn [obind] in H. injection H as <-. simpl.
      do 7 (split; [lia|]). intros off' [= <-]. exact Ez.
    + injection H as <-. simpl. do 7 (split; [lia|]). discriminate.
Qed.

Lemma wall_seconds_bounds (d : datetime) :
  1 <= year d <= 9999 -> 1 <= month d <= 12 -> 1 <= day d <= 31 ->
  0 <= hour d < 24 -> 0 <= minute d < 60 -> 0 <= second d < 60 ->
  Z.abs (wall_seconds d) < 2 ^ 39.
Proof.
  intros Hy Hm Hd Hh Hmi Hs. unfold wall_seconds.
  pose proof (ymd2ord_bounds _ _ _ Hy Hm Hd).
  change epoch_ordinal with 719163. change (2 ^ 39) with 549755813888. lia.
Qed.

Lemma fromisoformat_Ok (s : string) (d : datetime) :
  fromisoformat s = Ok d -> parse_isoformat s = Some d.
Proof.
  unfold fromisoformat. destruct (parse_isoformat s); [congruence | discriminate].
Qed.

(** X1 -- timestamps with an offset that fall on a whole second are
    converted exactly: when [s] (with [Z] read as [+00:00]) parses to an
    aware value whose instant is [S] seconds from the epoch, [_unix_ts]
    renders [1000 * S].  The two roundings to binary64 lose nothing on
    these inputs, for every date the parser accepts, before or after 1970. *)
Theorem unix_ts_whole_seconds (lts : datetime -> result Z) (s : string) (d : datetime)
    (off S : Z) :
  fromisoformat (replace_Z s) = Ok d ->
  tzinfo d = Some off ->
  epoch_us d off = 1000000 * S ->
  _unix_ts lts s = Ok (str_of_int (1000 * S)).
Proof.
  intros Hp Htz HS.
  assert (Hb : Z.abs S < 2 ^ 43).
  { apply fromisoformat_Ok, parse_isoformat_valid in Hp
      as (Hy & Hm & Hd & Hh & Hmi & Hs & Hus & Hoff).
    specialize (Hoff off Htz).
    pose proof (wall_seconds_bounds d Hy Hm Hd Hh Hmi Hs) as Hw.
    unfold epoch_us in HS. unfold day_us in Hoff.
    change (2 ^ 39) with 549755813888 in Hw.
    change (2 ^ 43) with 8796093022208. lia. }
  unfold _unix_ts. rewrite Hp. cbn [bind]. unfold timestamp. rewrite Htz, HS.
  pose proof (whole_seconds_ms S Hb) as Hms.
  destruct (int_true_divide (1000000 * S) 1000000) as [t|e]; [|discriminate].
  cbn [bind] in *. rewrite Hms. reflexivity.
Qed.

(** X2 -- a timestamp without offset is read in the local time of the
    machine.  When the platform's local-time conversion returns [L] seconds
    for the wall-clock fields and there is no fractional second,
    [_unix_ts] renders [1000 * L], so the same string gives different
    output in different time zones; when the conversion raises, as CPython
    does at the ends of the range, [_unix_ts] raises the same exception. *)
Theorem unix_ts_naive_whole_seconds (lts : datetime -> result Z) (s : string)
    (d : datetime) :
  fromisoformat (replace_Z s) = Ok d ->
  tzinfo d = None ->
  (forall L, lts d = Ok L -> microsecond d = 0 -> Z.abs L < 2 ^ 43 ->
     _unix_ts lts s = Ok (str_of_int (1000 * L)))
  /\ (forall e, lts d = Raise e -> _unix_ts lts s = Raise e).
Proof.
  intros Hp Htz. split.
  - intros L HL Hus Hb.
    unfold _unix_ts. rewrite Hp. cbn [bind]. unfold timestamp.
    rewrite Htz, HL, Hus. cbn [int_true_divide bind].
    rewrite float_of_int_canonical
      by (change (2 ^ 53) with 9007199254740992;
          change (2 ^ 43) with 8796093022208 in Hb; lia).
    destruct L as [|n|n]; [reflexivity| |].
    + change (SFadd prec emax (canonical_float false n) (S754_zero false))
        with (canonical_float false n).
      rewrite mul_1e3_exact by (simpl in Hb; lia).
      rewrite int_of_canonical by (apply digits_lt_pow2; simpl in Hb; lia).
      cbn [bind]. do 2 f_equal. lia.
    + change (SFadd prec emax (canonical_float true n) (S754_zero false))
        with (canonical_float true n).
      rewrite mul_1e3_exact by (simpl in Hb; lia).
      rewrite int_of_canonical by (apply digits_lt_pow2; simpl in Hb; lia).
      cbn [bind]. do 2 f_equal. lia.
  - intros e He. unfold _unix_ts. rewrite Hp. cbn [bind]. unfold timestamp.
    rewrite Htz, He. reflexivity.
Qed.

(** ** Formatter, continued *)

Lemma count_char_app (c : ascii) (a b : string) :
  count_char c (a ++ b) = (count_char c a + count_char c b)%nat.
Proof.
  induction a as [|ch a IH]; simpl; [reflexivity|]. rewrite IH. lia.
Qed.

Lemma count_char_uint (d : Decimal.uint) :
  count_char "," (NilEmpty.string_of_uint d) = O.
Proof. induction d; simpl; auto. Qed.

Lemma count_char_str_of_int (n : Z) : count_char "," (str_of_int n) = O.
Proof.
  unfold str_of_int, NilZero.string_of_int, NilZero.string_of_uint.
  destruct (Z.to_int n) as [d|d]; destruct d; simpl;
    try reflexivity; apply count_char_uint.
Qed.

Lemma unix_ts_digits (lts : datetime -> result Z) (s out : string) :
  _unix_ts lts s = Ok out -> exists n, out = str_of_int n.
Proof.
  unfold _unix_ts. intros H.
  apply bind_Ok_inv in H as (d & _ & H).
  apply bind_Ok_inv in H as (t & _ & H).
  apply bind_Ok_inv in H as (n & _ & H).
  injection H as <-. eauto.
Qed.

(** X6 -- no field of a row is escaped: the row has the four commas that
    separate its five fields and, beyond them, exactly the commas of the
    URL and of the labels field.  A comma in a URL therefore shifts the
    columns that follow it. *)
Theorem row_comma_count (lts : datetime -> result Z) (e : SearchItemEdge) (row : string) :
  row_of lts e row ->
  count_char "," row
  = (4 + count_char "," (url (node e))
       + count_char "," (_format_labels (labels (node e))))%nat.
Proof.
  intros (fields & Hf & _ & _ & ->).
  apply csv_fields_inv in Hf as (saved & published & Hs & Hp & ->).
  apply unix_ts_digits in Hs as (n1 & ->). apply unix_ts_digits in Hp as (n2 & ->).
  cbn [join]. rewrite !count_char_app, !count_char_str_of_int. simpl. lia.
Qed.

Lemma list_ascii_of_string_app (a b : string) :
  list_ascii_of_string (a ++ b)
  = (list_ascii_of_string a ++ list_ascii_of_string b)%list.
Proof. induction a as [|c a IH]; simpl; [reflexivity | now rewrite IH]. Qed.

Lemma append_inv_tail (a b c : string) : a ++ c = b ++ c -> a = b.
Proof.
  intros H. apply (f_equal list_ascii_of_string) in H.
  rewrite !list_ascii_of_string_app in H. apply app_inv_tail in H.
  apply (f_equal string_of_list_ascii) in H.
  now rewrite !string_of_list_ascii_of_string in H.
Qed.

(** Two comma-free strings followed by a comma: the first comma of the
    whole determines where each ends. *)
Lemma split_at_comma (a b x y : string) :
  count_char "," a = O -> count_char "," b = O ->
  a ++ String "," x = b ++ String "," y -> a = b /\ x = y.
Proof.
  revert b. induction a as [|c a IH]; intros [|c' b] Ha Hb H;
    cbn [append count_char] in *.
  - injection H as <-. auto.
  - injection H as <- _. rewrite Ascii.eqb_refl in Hb. discriminate Hb.
  - injection H as -> _. rewrite Ascii.eqb_refl in Ha. discriminate Ha.
  - injection H as <- H.
    destruct (Ascii.eqb "," c); [discriminate Ha|].
    destruct (IH b Ha Hb H) as [-> ->]. auto.
Qed.

Lemma join_comma_inj (l1 l2 : list string) :
  Forall (fun s => s <> "" /\ count_char "," s = O) l1 ->
  Forall (fun s => s <> "" /\ count_char "," s = O) l2 ->
  join "," l1 = join "," l2 -> l1 = l2.
Proof.
  intros H1. revert l2. induction H1 as [|a r1 [Hane Ha] Hr1 IH]; intros l2 H2 H.
  - destruct H2 as [|b r2 [Hbne Hb] Hr2]; [reflexivity|].
    destruct r2; simpl in H; destruct b; try congruence; discriminate.
  - destruct H2 as [|b r2 [Hbne Hb] Hr2].
    + destruct r1; simpl in H; destruct a; try congruence; discriminate.
    + destruct r1 as [|a' r1], r2 as [|b' r2].
      * simpl in H. congruence.
      * cbn [join] in H. apply (f_equal (count_char ",")) in H.
        rewrite count_char_app in H. simpl in H. lia.
      * cbn [join] in H. apply (f_equal (count_char ",")) in H.
        rewrite count_char_app in H. simpl in H. lia.
      * change (join "," (a :: a' :: r1)) with (a ++ String "," (join "," (a' :: r1))) in H.
        change (join "," (b :: b' :: r2)) with (b ++ String "," (join "," (b' :: r2))) in H.
        apply split_at_comma in H as [-> H]; [|assumption..].
        f_equal. apply IH; assumption.
Qed.

Lemma map_name_inj (l1 l2 : list Label) :
  map name l1 = map name l2 -> l1 = l2.
Proof.
  revert l2. induction l1 as [|[a] l1 IH]; intros [|[b] l2] H;
    try discriminate; [reflexivity|].
  simpl in H. injection H as -> H. f_equal. now apply IH.
Qed.

(** X7 -- on label lists whose names are non-empty and hold no comma, the
    serialization of labels is injective: the field determines the
    labels. *)
Theorem format_labels_injective (l1 l2 : list Label) :
  Forall (fun l => name l <> "" /\ count_char "," (name l) = O) l1 ->
  Forall (fun l => name l <> "" /\ count_char "," (name l) = O) l2 ->
  _format_labels l1 = _format_labels l2 -> l1 = l2.
Proof.
  intros H1 H2 H. unfold _format_labels in H. simpl in H.
  injection H as H. apply append_inv_tail in H.
  apply map_name_inj, join_comma_inj; [| |assumption].
  - apply Forall_map. exact H1.
  - apply Forall_map. exact H2.
Qed.

(** ** Rendering failures *)

Lemma csv_loop_Raise (lts : datetime -> result Z) (es : list SearchItemEdge) :
  forall acc e,
    csv_loop lts acc es = Raise e <->
    exists good bad rest,
      es = (good ++ bad :: rest)%list
      /\ Forall (fun g => exists fields, csv_fields lts g = Ok fields) good
      /\ csv_fields lts bad = Raise e.
Proof.
  induction es as [|x es IH]; intros acc e; cbn [csv_loop].
  - split; [discriminate|]. intros (good & bad & rest & H & _).
    destruct good; discriminate H.
  - unfold csv_line. destruct (csv_fields lts x) as [fields|e'] eqn:Ex; cbn [bind].
    + rewrite IH. split.
      * intros (good & bad & rest & -> & Hgood & Hbad).
        exists (x :: good), bad, rest. repeat split; eauto.
      * intros (good & bad & rest & Hes & Hgood & Hbad).
        destruct good as [|g good]; simpl in Hes; injection Hes as <- ->.
        -- congruence.
        -- exists good, bad, rest. inversion Hgood; subst. auto.
    + split.
      * intros [= <-]. exists [], x, es. auto.
      * intros (good & bad & rest & Hes & Hgood & Hbad).
        destruct good as [|g good]; simpl in Hes; injection Hes as <- ->.
        -- congruence.
        -- inversion Hgood as [|? ? [f Hf] ?]; subst. congruence.
Qed.

(** X4 -- rendering is all or nothing: [_generate_csv] raises exactly when
    some edge has a [savedAt], or a [publishedAt] in use, that [_unix_ts]
    does not convert, and the exception is the one of the first such edge
    (of its [savedAt] before its [publishedAt]).  No row of the other
    edges is returned. *)
Theorem generate_csv_raises (lts : datetime -> result Z) (es : list SearchItemEdge) (e : exn) :
  _generate_csv lts es = Raise e <->
  exists good bad rest,
    es = (good ++ bad :: rest)%list
    /\ Forall (fun g => exists fields, csv_fields lts g = Ok fields) good
    /\ (_unix_ts lts (savedAt (node bad)) = Raise e
        \/ (exists saved, _unix_ts lts (savedAt (node bad)) = Ok saved)
           /\ _unix_ts lts (published_or_saved (node bad)) = Raise e).
Proof.
  unfold _generate_csv. rewrite csv_loop_Raise.
  assert (Hbad : forall bad,
             csv_fields lts bad = Raise e <->
             (_unix_ts lts (savedAt (node bad)) = Raise e
              \/ (exists saved, _unix_ts lts (savedAt (node bad)) = Ok saved)
                 /\ _unix_ts lts (published_or_saved (node bad)) = Raise e)).
  { intros bad. unfold csv_fields.
    destruct (_unix_ts lts (savedAt (node bad))) as [saved|e1]; cbn [bind].
    - destruct (_unix_ts lts (published_or_saved (node bad))) as [p|e2]; cbn [bind].
      + split; [discriminate|]. intros [H | [_ H]]; discriminate H.
      + split; [intros [= <-]; right; eauto|]. intros [H | [_ H]]; congruence.
    - split; [intros [= <-]; auto|]. intros [H | [[s Hs] _]]; congruence. }
  split; intros (good & bad & rest & Hes & Hgood & H);
    exists good, bad, rest; repeat split; try assumption; now apply Hbad.
Qed.

Lemma csv_loop_app (lts : datetime -> result Z) (a b : list SearchItemEdge) :
  forall acc,
    csv_loop lts acc (a ++ b)
    = bind (csv_loop lts acc a) (fun out => csv_loop lts out b).
Proof.
  induction a as [|x a IH]; intros acc; cbn [csv_loop app bind]; [reflexivity|].
  destruct (csv_line lts x); cbn [bind]; [apply IH | reflexivity].
Qed.

Lemma csv_loop_acc (lts : datetime -> result Z) (es : list SearchItemEdge) :
  forall acc out,
    csv_loop lts acc es = Ok out ->
    exists body, out = acc ++ body
                 /\ forall acc', csv_loop lts acc' es = Ok (acc' ++ body).
Proof.
  induction es as [|x es IH]; intros acc out H; cbn [csv_loop] in *.
  - injection H as <-. exists "". split; [now rewrite append_nil_r|].
    intros acc'. now rewrite append_nil_r.
  - destruct (csv_line lts x) as [line|e]; cbn [bind] in *; [|discriminate].
    apply IH in H as (body & -> & Hbody).
    exists (line ++ body). split; [now rewrite append_assoc|].
    intros acc'. rewrite Hbody. now rewrite append_assoc.
Qed.

(** X5 -- rendering is incremental: the output for the edges [a ++ b] is
    the output for [a] followed by the rows of [b], without a second
    header.  What an interrupted run prints is a prefix of what the
    complete run would have printed. *)
Theorem generate_csv_prefix (lts : datetime -> result Z) (a b : list SearchItemEdge)
    (out : string) :
  _generate_csv lts (a ++ b) = Ok out ->
  exists out_a body,
    _generate_csv lts a = Ok out_a
    /\ _generate_csv lts b = Ok (csv_header ++ body)
    /\ out = out_a ++ body.
Proof.
  unfold _generate_csv. rewrite csv_loop_app. intros H.
  apply bind_Ok_inv in H as (out_a & Ha & Hb).
  apply csv_loop_acc in Hb as (body & -> & Hbody).
  exists out_a, body. auto.
Qed.

Section MoreProgramFacts.

Variable lts : datetime -> result Z.
Variable Service : Type.
Variable execute : Service -> Params -> Service * result SearchResult.

Lemma fetch_loop_chain :
  forall fuel cur self w self' w' r,
    fetch_loop execute fuel true cur self w = Some (self', w', r) ->
    exists evs,
      trace w' = (trace w ++ evs)%list
      /\ cursor_chain (chunksize self) cur evs r
      /\ (List.length evs <= fuel)%nat.
Proof.
  induction fuel as [|fuel IH]; intros cur self w self' w' r H; [discriminate|].
  cbn [fetch_loop] in H.
  destruct (execute (service w) (_params_for_cursor (chunksize self) cur))
    as [svc' resp] eqn:Hex.
  destruct resp as [[es pi | codes] | e].
  - destruct (hasNextPage pi) eqn:Hnext.
    + apply IH in H as (evs & Ht & Hchain & Hlen). cbn [trace] in Ht.
      exists (EvExecute (_params_for_cursor (chunksize self) cur)
                        (Ok (SearchSuccess es pi)) :: evs).
      split; [now rewrite Ht, <- app_assoc|]. split.
      * apply chain_next; assumption.
      * simpl. lia.
    + destruct fuel; cbn [fetch_loop] in H; injection H as <- <- <-;
        (eexists; split; [reflexivity|]; split;
         [now apply chain_done | simpl; lia]).
  - injection H as <- <- <-. eexists. split; [reflexivity|]. split.
    + now apply chain_raise.
    + simpl. lia.
  - injection H as <- <- <-. eexists. split; [reflexivity|]. split.
    + now apply chain_raise.
    + simpl. lia.
Qed.

(** X8 -- the requests of [_fetch].  Whatever the service answers, when
    [_fetch] returns or raises, the requests it made form a chain: all ask
    for [chunksize] records with the empty query, the first after the
    empty cursor and each later one after the [endCursor] of the page
    before; every response but the last is a page that announces a
    successor, and the last is either a page that announces none or the
    failure that is raised.  At least one request is made. *)
Theorem fetch_trace_is_cursor_chain fuel self (w : World Service) self' w' r :
  _fetch execute fuel self w = Some (self', w', r) ->
  exists evs,
    trace w' = (trace w ++ evs)%list
    /\ cursor_chain (chunksize self) (CursorInt 0) evs r
    /\ (1 <= List.length evs <= fuel)%nat.
Proof.
  intros H. apply fetch_loop_chain in H as (evs & Ht & Hchain & Hlen).
  exists evs. repeat split; try assumption.
  destruct Hchain; simpl; lia.
Qed.

(** X9 -- the loop has no guard against a cursor that does not advance:
    if the service, without changing state, answers the request after a
    cursor with a page that announces a successor and has that same cursor
    as [endCursor], the loop repeats the request for ever. *)
Theorem fetch_stalls_on_repeated_cursor chunk svc cur es pi :
  execute svc (_params_for_cursor chunk cur) = (svc, Ok (SearchSuccess es pi)) ->
  hasNextPage pi = true ->
  endCursor pi = after (_params_for_cursor chunk cur) ->
  forall fuel self t,
    chunksize self = chunk ->
    fetch_loop execute fuel true cur self (mk_World svc t) = None.
Proof.
  intros Hex Hnext Hcur fuel.
  assert (Hgen : forall cur' self t,
             _params_for_cursor chunk cur' = _params_for_cursor chunk cur ->
             chunksize self = chunk ->
             fetch_loop execute fuel true cur' self (mk_World svc t) = None).
  { induction fuel as [|fuel IH]; intros cur' self t Hp Hc; [reflexivity|].
    cbn [fetch_loop service]. rewrite Hc, Hp, Hex, Hnext.
    apply IH; [|exact Hc].
    unfold _params_for_cursor at 1. rewrite Hcur. reflexivity. }
  intros self t Hc. now apply Hgen.
Qed.

Lemma finish_inv (self : OmnivoreBackup) (w w' : World Service) r :
  _finish lts self w = (w', r) ->
  (exists csv, _generate_csv lts (edges self) = Ok csv
               /\ w' = log w (EvStdout (csv ++ nl)) /\ r = Ok tt)
  \/ (exists e, _generate_csv lts (edges self) = Raise e /\ w' = w /\ r = Raise e).
Proof.
  unfold _finish. destruct (_generate_csv lts (edges self)) as [csv|e];
    intros [= <- <-]; [left | right]; eauto.
Qed.

(** X13 -- output comes only at the end.  Whatever the service does, a run
    that ends has created one client, from the URL and the token of the
    object, before any request; has then made its requests; and has
    written to standard output only after the last of them: at most two
    blocks, each the rendering of the whole accumulator and a newline; at
    least one block when [run] returns normally, and none when it raises,
    be it that rendering failed or that an exception other than the
    interrupt escaped the loop. *)
Theorem run_prints_after_fetching fuel self (w : World Service) self' w' r :
  run lts execute fuel self w = Some (self', w', r) ->
  exists evs outs,
    trace w' = (trace w ++ EvClient (endpoint_url self) (token self)
                        :: evs ++ map EvStdout outs)%list
    /\ stdout_of evs = [] /\ clients_of evs = []
    /\ edges self' = (edges self ++ List.concat (map response_edges evs))%list
    /\ (List.length outs <= 2)%nat
    /\ (forall o, In o outs ->
          exists csv, _generate_csv lts (edges self') = Ok csv /\ o = csv ++ nl)
    /\ (r = Ok tt -> outs <> [])
    /\ (forall e, r = Raise e -> outs = []).
Proof.
  unfold run. intros H.
  destruct (_fetch execute fuel self (log w (EvClient (endpoint_url self) (token self))))
    as [[[self1 w1] r1]|] eqn:Hfetch; [|discriminate].
  unfold _fetch in Hfetch.
  apply fetch_loop_accumulates in Hfetch as (evs & Ht & He & Hs & Hc & _).
  cbn [log trace] in Ht.
  assert (Hbase : forall outs,
             (trace w1 ++ map EvStdout outs
              = trace w ++ EvClient (endpoint_url self) (token self)
                        :: evs ++ map EvStdout outs)%list).
  { intros outs. rewrite Ht, <- !app_assoc. reflexivity. }
  match goal with |- ?G =>
    assert (Hnone : forall e0, self' = self1 -> w' = w1 -> r = Raise e0 -> G);
    [| assert (Hsome : forall csv outs,
                 _generate_csv lts (edges self1) = Ok csv ->
                 outs <> [] -> (List.length outs <= 2)%nat ->
                 (forall o, In o outs -> o = (csv ++ nl)%string) ->
                 self' = self1 ->
                 trace w' = (trace w1 ++ map EvStdout outs)%list ->
                 r = Ok tt -> G) ]
  end.
  { intros e0 Hself Hw Hr. clear H. subst self' w' r.
    exists evs, []. rewrite <- (Hbase []), app_nil_r.
    split; [reflexivity|]. split; [exact Hs|]. split; [exact Hc|].
    split; [exact He|]. split; [simpl; lia|]. split; [intros o []|].
    split; [discriminate | reflexivity]. }
  { intros csv outs Hcsv Hne Hlen Hin Hself Hw Hr. clear H. subst self' r.
    exists evs, outs. rewrite <- (Hbase outs).
    split; [exact Hw|]. split; [exact Hs|]. split; [exact Hc|].
    split; [exact He|]. split; [exact Hlen|]. split.
    - intros o Ho. exists csv. split; [exact Hcsv | exact (Hin o Ho)].
    - split; [intros _; exact Hne | discriminate]. }
  destruct r1 as [[]|e1].
  - destruct (_finish lts self1 w1) as [w2 r2] eqn:Hf. injection H as <- <- <-.
    apply finish_inv in Hf as [(csv & Hcsv & -> & ->) | (e & Hcsv & -> & ->)].
    + apply (Hsome csv [(csv ++ nl)%string]);
        [exact Hcsv | discriminate | simpl; lia | | reflexivity | reflexivity
        | reflexivity].
      intros o [<- | []]. reflexivity.
    + now apply (Hnone e).
  - assert (Hother : Some (self1, w1, @Raise unit e1) = Some (self', w', r) ->
             exists evs0 outs,
               trace w' = (trace w ++ EvClient (endpoint_url self) (token self)
                                   :: evs0 ++ map EvStdout outs)%list
               /\ stdout_of evs0 = [] /\ clients_of evs0 = []
               /\ edges self' = (edges self ++ List.concat (map response_edges evs0))%list
               /\ (List.length outs <= 2)%nat
               /\ (forall o, In o outs ->
                     exists csv, _generate_csv lts (edges self') = Ok csv /\ o = csv ++ nl)
               /\ (r = Ok tt -> outs <> [])
               /\ (forall e, r = Raise e -> outs = [])).
    { intros [= <- <- <-]. now apply (Hnone e1). }
    destruct e1; try (exact (Hother H)). clear Hother.
    destruct (_finish lts self1 w1) as [w2 r2] eqn:Hf.
    apply finish_inv in Hf as [(csv & Hcsv & -> & ->) | (e & Hcsv & -> & ->)].
    + destruct (_finish lts self1 (log w1 (EvStdout (csv ++ nl)))) as [w3 r3] eqn:Hf2.
      injection H as <- <- <-.
      apply finish_inv in Hf2 as [(csv2 & Hcsv2 & -> & ->) | (e & Hcsv2 & _)];
        [|congruence].
      assert (csv2 = csv) as -> by congruence.
      apply (Hsome csv [(csv ++ nl)%string; (csv ++ nl)%string]);
        [exact Hcsv | discriminate | simpl; lia | | reflexivity | | reflexivity].
      * intros o [<- | [<- | []]]; reflexivity.
      * cbn [log trace map]. rewrite <- app_assoc. reflexivity.
    + injection H as <- <- <-. now apply (Hnone e).
Qed.

(** X11 -- normal completion.  When the service serves its pages up to one
    that announces no successor and all timestamps convert, [run], and
    [main] with a non-empty token, return normally (exit status 0) after
    printing the rendering of all fetched edges exactly once. *)
Theorem run_completes_once chunk u tok svc ps svc1 cur1 es pi svc2 t0 out fuel :
  replies execute chunk svc (CursorInt 0) ps svc1 cur1 ->
  execute svc1 (_params_for_cursor chunk cur1) = (svc2, Ok (SearchSuccess es pi)) ->
  hasNextPage pi = false ->
  _generate_csv lts (List.concat (map fst (ps ++ [(es, pi)]))) = Ok out ->
  tok <> "" ->
  (List.length ps < fuel)%nat ->
  exists w',
    run lts execute fuel (__init__ chunk u tok) (mk_World svc t0)
    = Some (mk_OmnivoreBackup chunk u tok (List.concat (map fst (ps ++ [(es, pi)]))),
            w', Ok tt)
    /\ main lts execute fuel (Some tok) chunk u (mk_World svc t0) = Some (w', Ok tt)
    /\ exit_status (Ok tt) = 0
    /\ stdout_of (trace w') = (stdout_of t0 ++ [(out ++ nl)%string])%list
    /\ service w' = svc2.
Proof.
  intros Hrep Hex Hlast Hcsv Htok Hfuel.
  assert (Hrun : run lts execute fuel (__init__ chunk u tok) (mk_World svc t0)
    = Some (mk_OmnivoreBackup chunk u tok (List.concat (map fst (ps ++ [(es, pi)]))),
            mk_World svc2
              (((t0 ++ [EvClient u tok])
                ++ page_events chunk (CursorInt 0) (ps ++ [(es, pi)]))
               ++ [EvStdout (out ++ nl)])%list,
            Ok tt)).
  { unfold run, log. cbn [endpoint_url token __init__ service trace].
    erewrite fetch_served by eassumption.
    unfold _finish, log. cbn [edges service trace]. rewrite Hcsv. reflexivity. }
  eexists. split; [exact Hrun|]. split; [|split; [reflexivity|split]].
  - unfold main. destruct tok as [|c tok']; [contradiction|].
    cbn [py_not]. rewrite Hrun. reflexivity.
  - cbn [trace]. rewrite !stdout_of_app, stdout_of_page_events. simpl.
    now rewrite !app_nil_r.
  - reflexivity.
Qed.

End MoreProgramFacts.

(** ** Instances of the further properties *)

(** Midnight UTC of 2023-01-01, written with the offset [+05:30]; and an
    offset of zero seconds with a fraction, which is UTC. *)
Lemma unix_ts_whole_seconds_witness :
  _unix_ts utc_platform "2023-01-01T05:30:00+05:30" = Ok "1672531200000"
  /\ _unix_ts utc_platform "2023-01-01T12:30:45+00:00:00.500000" = Ok "1672576245000".
Proof.
  split.
  - exact (unix_ts_whole_seconds utc_platform "2023-01-01T05:30:00+05:30"
             (mk_datetime 2023 1 1 5 30 0 0 (Some 19800000000))
             19800000000 1672531200 eq_refl eq_refl eq_refl).
  - exact (unix_ts_whole_seconds utc_platform "2023-01-01T12:30:45+00:00:00.500000"
             (mk_datetime 2023 1 1 12 30 45 0 (Some 0))
             0 1672576245 eq_refl eq_refl eq_refl).
Defined.

(** A date without offset, on a machine one hour ahead of UTC and on a
    machine in UTC; and the first day of year 1, where the conversion to
    local time fails. *)
Lemma unix_ts_naive_whole_seconds_witness :
  _unix_ts cet_platform "2023-01-01" = Ok "1672527600000"
  /\ _unix_ts utc_platform "2023-01-01" = Ok "1672531200000"
  /\ _unix_ts utc_platform "0001-01-01"
     = Raise (ValueError "year 0 is out of range").
Proof.
  split; [|split].
  - apply (proj1 (unix_ts_naive_whole_seconds cet_platform "2023-01-01"
                    (mk_datetime 2023 1 1 0 0 0 0 None) eq_refl eq_refl)
                 1672527600); [reflexivity | reflexivity | vm_compute; reflexivity].
  - apply (proj1 (unix_ts_naive_whole_seconds utc_platform "2023-01-01"
                    (mk_datetime 2023 1 1 0 0 0 0 None) eq_refl eq_refl)
                 1672531200); [reflexivity | reflexivity | vm_compute; reflexivity].
  - apply (proj2 (unix_ts_naive_whole_seconds utc_platform "0001-01-01"
                    (mk_datetime 1 1 1 0 0 0 0 None) eq_refl eq_refl)).
    reflexivity.
Defined.

(** One record with an empty [savedAt] between two good ones; the text of
    the message of the [ValueError] is not modelled in detail. *)
Lemma generate_csv_raises_witness :
  exists msg,
    _generate_csv utc_platform
      [sample_item "https://x.org/1" None;
       mk_SearchItemEdge "c" (mk_SearchItem "t" "https://x.org/bad" [] None "");
       sample_item "https://x.org/3" None]
    = Raise (ValueError msg).
Proof.
  eexists. apply (proj2 (generate_csv_raises utc_platform _ _)).
  exists [sample_item "https://x.org/1" None],
         (mk_SearchItemEdge "c" (mk_SearchItem "t" "https://x.org/bad" [] None "")),
         [sample_item "https://x.org/3" None].
  split; [reflexivity|]. split.
  - constructor; [|constructor].
    exists (sample_fields "https://x.org/1" "1685620800000").
    vm_compute. reflexivity.
  - left. reflexivity.
Defined.

(** The rendering of the first page begins the rendering of both. *)
Lemma generate_csv_prefix_witness :
  exists out_a body,
    _generate_csv utc_platform (fst sample_page1) = Ok out_a
    /\ _generate_csv utc_platform (fst sample_page2) = Ok (csv_header ++ body)
    /\ sample_csv = out_a ++ body.
Proof.
  apply (generate_csv_prefix utc_platform (fst sample_page1) (fst sample_page2)
           sample_csv).
  vm_compute. reflexivity.
Defined.

(** A comma in the URL and one in the labels field: six commas. *)
Lemma row_comma_count_witness :
  count_char "," (sample_row "https://x.org/a,b" "1685620800000") = 6%nat.
Proof.
  refine (eq_trans
            (row_comma_count utc_platform (sample_item "https://x.org/a,b" None)
               (sample_row "https://x.org/a,b" "1685620800000") _) _).
  - exists (sample_fields "https://x.org/a,b" "1685620800000").
    split; [vm_compute; reflexivity|]. repeat split.
  - reflexivity.
Defined.

(** The order of the labels shows in the field. *)
Lemma format_labels_injective_witness :
  _format_labels [mk_Label "a"; mk_Label "b"]
  <> _format_labels [mk_Label "b"; mk_Label "a"].
Proof.
  intros H.
  apply (format_labels_injective [mk_Label "a"; mk_Label "b"]
           [mk_Label "b"; mk_Label "a"]) in H.
  - discriminate H.
  - repeat constructor; discriminate.
  - repeat constructor; discriminate.
Defined.

(** The two requests of the sample run. *)
Lemma fetch_trace_is_cursor_chain_witness :
  exists evs,
    [EvExecute (mk_Params "" 2 "") (page_response sample_page1);
     EvExecute (mk_Params "" 2 "c1") (page_response sample_page2)]
    = ([] ++ evs)%list
    /\ cursor_chain 2 (CursorInt 0) evs (Ok tt)
    /\ (1 <= List.length evs <= 2)%nat.
Proof.
  exact (fetch_trace_is_cursor_chain _ scripted_execute 2 sample_backup
           (mk_World sample_script [])
           (mk_OmnivoreBackup 2 sample_url "secret" sample_items)
           (mk_World []
              [EvExecute (mk_Params "" 2 "") (page_response sample_page1);
               EvExecute (mk_Params "" 2 "c1") (page_response sample_page2)])
           (Ok tt) eq_refl).
Defined.

(** A service that keeps returning the empty cursor. *)
Lemma fetch_stalls_on_repeated_cursor_witness :
  fetch_loop stuck_execute 1000 true (CursorInt 0) sample_backup (mk_World tt [])
  = None.
Proof.
  exact (fetch_stalls_on_repeated_cursor _ stuck_execute 2 tt (CursorInt 0) []
           (mk_PageInfo true false "" "" 0) eq_refl eq_refl eq_refl
           1000%nat sample_backup [] eq_refl).
Defined.

(** The sample records behind the paged service, fetched two at a time. *)
Lemma fetch_paged_service_complete_witness :
  exists fuel0 evs,
    forall fuel, (fuel0 <= fuel)%nat ->
      _fetch (paged_execute sample_items) fuel (__init__ 2 sample_url "secret")
             (mk_World tt [])
      = Some (mk_OmnivoreBackup 2 sample_url "secret" sample_items,
              mk_World tt ([] ++ evs), Ok tt).
Proof.
  apply (fetch_paged_service_complete 2 sample_items sample_url "secret" []).
  lia.
Defined.

(** Both pages served: one block on standard output, status 0. *)
Lemma run_completes_once_witness :
  exists w',
    run utc_platform scripted_execute 2 sample_backup (mk_World sample_script [])
    = Some (mk_OmnivoreBackup 2 sample_url "secret" sample_items, w', Ok tt)
    /\ main utc_platform scripted_execute 2 (Some "secret") 2 sample_url
            (mk_World sample_script [])
       = Some (w', Ok tt)
    /\ exit_status (Ok tt) = 0
    /\ stdout_of (trace w') = [sample_csv ++ nl]
    /\ service w' = [].
Proof.
  apply (run_completes_once utc_platform _ scripted_execute 2 sample_url "secret"
           sample_script [sample_page1] _ _ (fst sample_page2) (snd sample_page2)
           [] [] sample_csv 2%nat
           (sample_replies (page_response sample_page2)) eq_refl eq_refl).
  - vm_compute. reflexivity.
  - discriminate.
  - apply le_n.
Defined.

(** Interrupted after the first page: its rendering, twice. *)
Lemma run_interrupted_witness :
  exists w',
    run utc_platform scripted_execute 2 sample_backup
        (mk_World interrupted_script [])
    = Some (mk_OmnivoreBackup 2 sample_url "secret" (fst sample_page1), w', Ok tt)
    /\ stdout_of (trace w') = [sample_csv_page1 ++ nl; sample_csv_page1 ++ nl].
Proof.
  apply (run_interrupted utc_platform _ scripted_execute 2 sample_url "secret"
           interrupted_script [sample_page1] _ _ [] [] sample_csv_page1 2%nat
           (sample_replies (Raise KeyboardInterrupt)) eq_refl).
  - vm_compute. reflexivity.
  - apply le_n.
Defined.

(** The interrupted run: client, requests, then output; and the run whose
    second request is answered with the error variant: no output. *)
Lemma run_prints_after_fetching_witness :
  (run utc_platform scripted_execute 2 sample_backup
       (mk_World interrupted_script [])
   = Some (mk_OmnivoreBackup 2 sample_url "secret" (fst sample_page1),
           mk_World []
             [EvClient sample_url "secret";
              EvExecute (mk_Params "" 2 "") (page_response sample_page1);
              EvExecute (mk_Params "" 2 "c1") (Raise KeyboardInterrupt);
              EvStdout (sample_csv_page1 ++ nl);
              EvStdout (sample_csv_page1 ++ nl)],
           Ok tt)
   /\ exists evs outs,
        [EvClient sample_url "secret";
         EvExecute (mk_Params "" 2 "") (page_response sample_page1);
         EvExecute (mk_Params "" 2 "c1") (Raise KeyboardInterrupt);
         EvStdout (sample_csv_page1 ++ nl);
         EvStdout (sample_csv_page1 ++ nl)]
        = (EvClient sample_url "secret" :: evs ++ map EvStdout outs)%list
        /\ stdout_of evs = [] /\ outs <> [])
  /\ (run utc_platform scripted_execute 2 sample_backup
          (mk_World failing_script [])
      = Some (mk_OmnivoreBackup 2 sample_url "secret" (fst sample_page1),
              mk_World []
                [EvClient sample_url "secret";
                 EvExecute (mk_Params "" 2 "") (page_response sample_page1);
                 EvExecute (mk_Params "" 2 "c1") (Ok (SearchError ["UNAUTHORIZED"]))],
              Raise (KeyError "pageInfo"))
      /\ exists evs,
           [EvClient sample_url "secret";
            EvExecute (mk_Params "" 2 "") (page_response sample_page1);
            EvExecute (mk_Params "" 2 "c1") (Ok (SearchError ["UNAUTHORIZED"]))]
           = (EvClient sample_url "secret" :: evs)%list
           /\ stdout_of evs = []).
Proof.
  assert (Hint : run utc_platform scripted_execute 2 sample_backup
                     (mk_World interrupted_script [])
                 = Some (mk_OmnivoreBackup 2 sample_url "secret" (fst sample_page1),
                         mk_World []
                           [EvClient sample_url "secret";
                            EvExecute (mk_Params "" 2 "") (page_response sample_page1);
                            EvExecute (mk_Params "" 2 "c1") (Raise KeyboardInterrupt);
                            EvStdout (sample_csv_page1 ++ nl);
                            EvStdout (sample_csv_page1 ++ nl)],
                         Ok tt))
    by (vm_compute; reflexivity).
  assert (Hfail : run utc_platform scripted_execute 2 sample_backup
                      (mk_World failing_script [])
                  = Some (mk_OmnivoreBackup 2 sample_url "secret" (fst sample_page1),
                          mk_World []
                            [EvClient sample_url "secret";
                             EvExecute (mk_Params "" 2 "") (page_response sample_page1);
                             EvExecute (mk_Params "" 2 "c1")
                               (Ok (SearchError ["UNAUTHORIZED"]))],
                          Raise (KeyError "pageInfo")))
    by (vm_compute; reflexivity).
  split; (split; [assumption|]).
  - destruct (run_prints_after_fetching utc_platform _ scripted_execute _ _ _ _ _ _ Hint)
      as (evs & outs & Ht & Hs & _ & _ & _ & _ & Hsome & _).
    exists evs, outs. split; [exact Ht|]. split; [exact Hs | exact (Hsome eq_refl)].
  - destruct (run_prints_after_fetching utc_platform _ scripted_execute _ _ _ _ _ _ Hfail)
      as (evs & outs & Ht & Hs & _ & _ & _ & _ & _ & Hnone).
    exists evs. split; [|exact Hs].
    rewrite (Hnone _ eq_refl) in Ht. simpl in Ht. rewrite app_nil_r in Ht. exact Ht.
Defined.
